(** * Shallow embedding of [pupilanalysis/drosom/plotting/basics.py]

    The core of the plotting module: the single-map renderer
    [plot_3d_vectormap], the difference-map renderer [plot_3d_differencemap],
    the comparison orchestrator [compare_3d_vectormaps] and the multi-view
    orchestrator [compare_3d_vectormaps_manyviews].

    Python objects that are mutated or shared (lists and dicts, in particular
    the mutable default arguments, analyser objects and matplotlib axes) live
    in explicit stores; a call runs in a state and exception monad, so a
    raised exception keeps every write made before it, as in Python.
    Calls to the collaborators ([get_3d_vectors], [field_error],
    [surface_plot], [plt.colorbar]) are recorded in a trace.  Drawing calls
    that neither read nor write modelled state (titles, texts, images,
    limits, [vector_plot], [add_line], ...) are left out. *)

From stdpp Require Import base gmap strings list.
From Stdlib Require Import ZArith Floats Uint63.

Local Open Scope string_scope.
#[local] Set Warnings "-register-all".

(** ** Python values *)

Inductive val :=
| VNone
| VBool (b : bool)
| VInt (z : Z)                 (** Python numbers (angles are integers here) *)
| VStr (s : string)
| VTuple (l : list val)        (** immutable tuple *)
| VRef (r : nat)               (** a list or dict object on the heap *)
| VAn (a : nat)                (** an analyser object *)
| VAx (x : nat).               (** a matplotlib Axes object *)

Inductive obj :=
| OList (l : list val)
| ODict (d : list (string * val)).

(** Python dictionaries keep insertion order; assignment to an existing key
    keeps its position. *)
Fixpoint dget (d : list (string * val)) (k : string) : option val :=
  match d with
  | [] => None
  | (k', v) :: d' => if String.eqb k k' then Some v else dget d' k
  end.

Fixpoint dset (d : list (string * val)) (k : string) (v : val) : list (string * val) :=
  match d with
  | [] => [(k, v)]
  | (k', v') :: d' => if String.eqb k k' then (k', v) :: d' else (k', v') :: dset d' k v
  end.

(** ** Analysers and axes *)

Record Analyser := mkAnalyser {
  an_class : string;                   (** [__class__.__name__] *)
  manalysers : option (list string);   (** class names of [.manalysers]; [None]: no such attribute *)
  eyes : list string;
  vector_rotation : val;
  pitch_rot : val;
  roll_rot : val;
  yaw_rot : val;
  constant_points : val
}.

Record Axis := mkAxis {
  differencemap_colorbar : option nat;          (** [ax.differencemap_colorbar], its colorbar axes *)
  pupil_compare_errors : option (list float);
  pupil_compare_rotations : option (list val);
  pupil_compare_reverse_errors : option (list float);
  extra_illustrate_ax : option nat;
  illustrate_ax : option nat;
  error_ax : option nat;
  colorbar_ax : option nat;
  cbox_set : bool                               (** [ax.cbox] has been assigned *)
}.

Definition fresh_axis : Axis :=
  mkAxis None None None None None None None None false.

(** [np.linspace(lo * pi/2, hi * pi/2, num)] *)
Record phi_range := mkPhi { phi_lo : Z; phi_hi : Z; phi_num : Z }.

(** Arguments seen by one [compare_3d_vectormaps] invocation. *)
Record compare_call := mkCompareCall {
  cc_elev : val; cc_azim : val;
  cc_illustrate : val; cc_total_error : val; cc_colorbar : val
}.

Inductive event :=
| ECall (fn : string) (a : nat)            (** entry of a renderer for analyser [a] *)
| EGet (a : nat) (snap : Analyser) (eye : string)
                                          (** [get_3d_vectors], analyser state at the call *)
| EFieldError (colinear : val)
| ESurface (ax : nat) (eye : string) (phi : phi_range)
| EColorbar (ax : nat) (cax : nat)        (** [plt.colorbar] attached for target [ax] *)
| EAccumulate (ax : nat) (v : val)        (** one point appended to a running error series *)
| ECompare (c : compare_call).

Record State := mkState {
  heap : gmap nat obj;
  analysers : gmap nat Analyser;
  axes_store : gmap nat Axis;
  trace : list event
}.

Inductive exn :=
| TypeError | ValueError | IndexError | KeyError | AttributeError | NameError
| DataUnavailable.

(** ** The state and exception monad *)

Inductive result (A : Type) := Ok (a : A) | Err (e : exn).
Arguments Ok {A} a.
Arguments Err {A} e.

Definition M (A : Type) := State -> State * result A.

Definition ret {A} (a : A) : M A := fun s => (s, Ok a).
Definition raise {A} (e : exn) : M A := fun s => (s, Err e).
Definition bind {A B} (m : M A) (k : A -> M B) : M B :=
  fun s => match m s with
           | (s', Ok a) => k a s'
           | (s', Err e) => (s', Err e)
           end.

Notation "'let!' x := m 'in' k" := (bind m (fun x => k))
  (at level 200, x name, m at level 100, k at level 200).
Notation "m ;; k" := (bind m (fun _ => k)) (at level 100, right associativity).

Definition get : M State := fun s => (s, Ok s).
Definition modify (f : State -> State) : M unit := fun s => (f s, Ok tt).

Definition emit (e : event) : M unit :=
  modify (fun s => mkState (heap s) (analysers s) (axes_store s) (trace s ++ [e])).

Definition when (b : bool) (m : M unit) : M unit := if b then m else ret tt.

(** [for x in l: body] *)
Fixpoint mfor {A} (l : list A) (body : A -> M unit) : M unit :=
  match l with
  | [] => ret tt
  | x :: l' => body x ;; mfor l' body
  end.

(** ** Heap, analyser and axes primitives *)

Definition heap_obj (r : nat) : M obj :=
  let! s := get in
  match heap s !! r with Some o => ret o | None => raise TypeError end.

Definition heap_put (r : nat) (o : obj) : M unit :=
  modify (fun s => mkState (<[r := o]> (heap s)) (analysers s) (axes_store s) (trace s)).

Definition new_obj (o : obj) : M val :=
  let! s := get in
  let r := fresh (dom (heap s)) in
  heap_put r o ;; ret (VRef r).

(** the items of a sequence (list or tuple) *)
Definition seq_items (v : val) : M (list val) :=
  match v with
  | VTuple l => ret l
  | VRef r => let! o := heap_obj r in
              match o with OList l => ret l | ODict _ => raise TypeError end
  | _ => raise TypeError
  end.

(** the entries of a dict, as [**d] or [d.copy()] reads them *)
Definition dict_items (v : val) : M (list (string * val)) :=
  match v with
  | VRef r => let! o := heap_obj r in
              match o with ODict d => ret d | OList _ => raise TypeError end
  | _ => raise TypeError
  end.

(** [d[k] = x] on a dict object *)
Definition dict_setitem (v : val) (k : string) (x : val) : M unit :=
  let! d := dict_items v in
  match v with VRef r => heap_put r (ODict (dset d k x)) | _ => raise TypeError end.

(** [l.append(x)] on a list object *)
Definition list_append (v : val) (x : val) : M unit :=
  match v with
  | VRef r => let! o := heap_obj r in
              match o with
              | OList l => heap_put r (OList (l ++ [x]))
              | ODict _ => raise AttributeError
              end
  | _ => raise AttributeError
  end.

(** [v[i]] for a non-negative index *)
Definition getitem (v : val) (i : nat) : M val :=
  let! l := seq_items v in
  match l !! i with Some x => ret x | None => raise IndexError end.

(** [len(v)] *)
Definition py_len (v : val) : M nat :=
  match v with
  | VRef r => let! o := heap_obj r in
              match o with OList l => ret (length l) | ODict d => ret (length d) end
  | VTuple l => ret (length l)
  | VStr s => ret (String.length s)
  | _ => raise TypeError
  end.

(** truth value of [v] *)
Definition truthy (v : val) : M bool :=
  match v with
  | VNone => ret false
  | VBool b => ret b
  | VInt z => ret (negb (Z.eqb z 0))
  | VStr s => ret (negb (String.eqb s ""))
  | VTuple l => ret (negb (Nat.eqb (length l) 0))
  | VRef r => let! o := heap_obj r in
              match o with
              | OList l => ret (negb (Nat.eqb (length l) 0))
              | ODict d => ret (negb (Nat.eqb (length d) 0))
              end
  | VAn _ | VAx _ => ret true
  end.

(** [v == z] for an integer literal [z] ([False == 0] and [True == 1] in Python) *)
Definition py_eq_int (v : val) (z : Z) : bool :=
  match v with
  | VInt z' => Z.eqb z' z
  | VBool b => Z.eqb (if b then 1 else 0)%Z z
  | _ => false
  end.

Definition is_none (v : val) : bool := match v with VNone => true | _ => false end.

(** [v == "s"] *)
Definition py_eq_str (v : val) (s : string) : bool :=
  match v with VStr s' => String.eqb s' s | _ => false end.

(** a number, as arithmetic or [float(v)] needs it *)
Definition as_number (v : val) : M Z :=
  match v with
  | VInt z => ret z
  | VBool b => ret (if b then 1 else 0)%Z
  | _ => raise TypeError
  end.

Definition an_obj (v : val) : M nat :=
  match v with VAn a => ret a | _ => raise AttributeError end.

Definition get_an (a : nat) : M Analyser :=
  let! s := get in
  match analysers s !! a with Some an => ret an | None => raise AttributeError end.

Definition put_an (a : nat) (an : Analyser) : M unit :=
  modify (fun s => mkState (heap s) (<[a := an]> (analysers s)) (axes_store s) (trace s)).

Definition set_vector_rotation (an : Analyser) (v : val) : Analyser :=
  mkAnalyser (an_class an) (manalysers an) (eyes an) v
             (pitch_rot an) (roll_rot an) (yaw_rot an) (constant_points an).
Definition set_pitch_rot (an : Analyser) (v : val) : Analyser :=
  mkAnalyser (an_class an) (manalysers an) (eyes an) (vector_rotation an)
             v (roll_rot an) (yaw_rot an) (constant_points an).
Definition set_roll_rot (an : Analyser) (v : val) : Analyser :=
  mkAnalyser (an_class an) (manalysers an) (eyes an) (vector_rotation an)
             (pitch_rot an) v (yaw_rot an) (constant_points an).
Definition set_yaw_rot (an : Analyser) (v : val) : Analyser :=
  mkAnalyser (an_class an) (manalysers an) (eyes an) (vector_rotation an)
             (pitch_rot an) (roll_rot an) v (constant_points an).
Definition set_constant_points (an : Analyser) (v : val) : Analyser :=
  mkAnalyser (an_class an) (manalysers an) (eyes an) (vector_rotation an)
             (pitch_rot an) (roll_rot an) (yaw_rot an) v.

(** [setattr(manalyser, name, v)] for the attributes the module writes *)
Definition setattr_an (a : nat) (name : string) (v : val) : M unit :=
  let! an := get_an a in
  if String.eqb name "vector_rotation" then put_an a (set_vector_rotation an v)
  else if String.eqb name "pitch_rot" then put_an a (set_pitch_rot an v)
  else if String.eqb name "roll_rot" then put_an a (set_roll_rot an v)
  else if String.eqb name "yaw_rot" then put_an a (set_yaw_rot an v)
  else if String.eqb name "constant_points" then put_an a (set_constant_points an v)
  else raise AttributeError.

(** [manalyser.manalysers[0].__class__.__name__] *)
Definition first_part_class (an : Analyser) : M string :=
  match manalysers an with
  | None => raise AttributeError
  | Some [] => raise IndexError
  | Some (c :: _) => ret c
  end.

Definition get_ax (x : nat) : M Axis :=
  let! s := get in
  match axes_store s !! x with Some ax => ret ax | None => raise AttributeError end.

Definition put_ax (x : nat) (ax : Axis) : M unit :=
  modify (fun s => mkState (heap s) (analysers s) (<[x := ax]> (axes_store s)) (trace s)).

(** [fig.add_subplot(...)] or [fig.add_axes(...)]: a new Axes object *)
Definition new_axis : M nat :=
  let! s := get in
  let x := fresh (dom (axes_store s)) in
  put_ax x fresh_axis ;; ret x.

(** [ax.attr = ...]: an in-place update of an Axes object *)
Definition update_ax (x : nat) (f : Axis -> Axis) : M unit :=
  let! axr := get_ax x in put_ax x (f axr).

Definition ax_obj (v : val) : M nat :=
  match v with VAx x => ret x | _ => raise AttributeError end.

(** [for x in l: acc = body(acc, x)] *)
Fixpoint mfold {A B} (l : list A) (acc : B) (body : B -> A -> M B) : M B :=
  match l with
  | [] => ret acc
  | x :: l' => let! acc' := body acc x in mfold l' acc' body
  end.

(** ** Python call binding *)

(** The keywords of a call: the explicit keywords, then each [**d] spread;
    a key given twice raises TypeError ("got multiple values"). *)
Fixpoint merge_kw (acc : list (string * val)) (l : list (string * val)) : option (list (string * val)) :=
  match l with
  | [] => Some acc
  | (k, v) :: l' =>
      match dget acc k with
      | Some _ => None
      | None => merge_kw (acc ++ [(k, v)]) l'
      end
  end.

Definition call_kwargs (explicit : list (string * val)) (spreads : list (list (string * val)))
  : M (list (string * val)) :=
  match merge_kw [] (explicit ++ concat spreads) with
  | Some kw => ret kw
  | None => raise TypeError
  end.

Definition is_param (params : list string) (k : string) : bool := existsb (String.eqb k) params.

Fixpoint bind_kw (params : list string) (varkw : bool) (bound extra : list (string * val))
    (kw : list (string * val)) : option (list (string * val) * list (string * val)) :=
  match kw with
  | [] => Some (bound, extra)
  | (k, v) :: kw' =>
      if is_param params k then
        match dget bound k with
        | Some _ => None
        | None => bind_kw params varkw (bound ++ [(k, v)]) extra kw'
        end
      else if varkw then bind_kw params varkw bound (extra ++ [(k, v)]) kw'
      else None
  end.

(** Binds positional and keyword arguments to the parameters; with [varkw]
    the unknown keywords go to [**kwargs], otherwise they are refused. *)
Definition py_bind (params : list string) (varkw : bool) (pos : list val)
    (kw : list (string * val)) : option (list (string * val) * list (string * val)) :=
  if Nat.ltb (length params) (length pos) then None
  else bind_kw params varkw (zip params pos) [] kw.

(** the binding step of a call: TypeError when [py_bind] refuses *)
Definition bind_args (params : list string) (varkw : bool) (pos : list val)
    (kw : list (string * val)) : M (list (string * val) * list (string * val)) :=
  match py_bind params varkw pos kw with
  | Some bk => ret bk
  | None => raise TypeError
  end.

(** the value of a parameter with a default *)
Definition arg (b : list (string * val)) (name : string) (dflt : val) : val :=
  match dget b name with Some v => v | None => dflt end.

(** a parameter without default *)
Definition req (b : list (string * val)) (name : string) : M val :=
  match dget b name with Some v => ret v | None => raise TypeError end.

(** ** Objects created when the module is loaded

    The mutable default arguments are single objects shared by every call
    that does not pass the argument. *)
Definition DEFAULT_VECTORMAP_ARROWS : nat := 0.     (** [plot_3d_vectormap(arrow_rotations=[0])] *)
Definition DEFAULT_DIFFERENCEMAP_ARROWS : nat := 1. (** [plot_3d_differencemap(arrow_rotations=[0])] *)
Definition DEFAULT_KWARGSD : nat := 2.              (** [compare_3d_vectormaps(kwargsD={})] *)
Definition DEFAULT_KWARGS1 : nat := 3.
Definition DEFAULT_KWARGS2 : nat := 4.

Definition module_heap : gmap nat obj :=
  list_to_map [(DEFAULT_VECTORMAP_ARROWS, OList [VInt 0]);
               (DEFAULT_DIFFERENCEMAP_ARROWS, OList [VInt 0]);
               (DEFAULT_KWARGSD, ODict []);
               (DEFAULT_KWARGS1, ODict []);
               (DEFAULT_KWARGS2, ODict [])].

(** [colorbar_text_positions] default (never mutated, kept as a tuple) *)
Definition DEFAULT_COLORBAR_TEXT_POSITIONS : val :=
  VTuple [VTuple [VInt 1; VInt 0; VStr "left"; VStr "top"];
          VTuple [VInt 1; VInt 0; VStr "left"; VStr "center"];
          VTuple [VInt 1; VInt 0; VStr "left"; VStr "bottom"]].

Definition vec3 := (float * float * float)%type.
Definition VectorField := (list vec3 * list vec3)%type.

Definition one_minus (e : float) : float := PrimFloat.sub (PrimFloat.of_uint63 1%uint63) e.

(** [vectors[eye] = vectors_3d] on the dict of extracted fields *)
Fixpoint vectors_set (d : list (string * VectorField)) (k : string) (v : VectorField)
  : list (string * VectorField) :=
  match d with
  | [] => [(k, v)]
  | (k', v') :: d' => if String.eqb k k' then (k', v) :: d' else (k', v') :: vectors_set d' k v
  end.

(** [np.concatenate(all_errors)]: raises on an empty list of arrays *)
Definition np_concatenate (all_errors : list (list float)) : M (list float) :=
  match all_errors with
  | [] => raise ValueError
  | _ => ret (concat all_errors)
  end.

(** [_set_analyser_attributes]: [for key, value in kwargs] iterates the keys
    and unpacks each key string into two characters. *)
Definition analyser_attribute_names : list string :=
  ["eyes"; "manalysers"; "vector_rotation"; "pitch_rot"; "roll_rot"; "yaw_rot";
   "constant_points"].

Definition hasattr_val (v : val) (name : string) : bool :=
  match v with VAn _ => existsb (String.eqb name) analyser_attribute_names | _ => false end.

Definition _set_analyser_attributes (analyser : val) (skip_none raise_errors : bool)
    (kwargs : list (string * val)) : M unit :=
  mfor kwargs (fun kv =>
    match fst kv with
    | String c1 (String c2 EmptyString) =>
        let key := String c1 EmptyString in
        let value := VStr (String c2 EmptyString) in
        if negb (is_none value) || negb skip_none then
          if hasattr_val analyser key then
            let! a := an_obj analyser in setattr_an a key value
          else if raise_errors then raise NameError   (* the message names [anlayser] *)
          else ret tt
        else ret tt
    | _ => raise ValueError
    end).

(** ** Collaborators *)

Section Renderers.

(** [manalyser.get_3d_vectors(eye, correct_level=True, repeats_separately=...,
    strict=True, vertical_hardborder=...)]: the field of an analyser in its
    current transform state; [None] when strict extraction fails. *)
Variable geometry : Analyser -> string -> val -> val -> option VectorField.
(** the per-point error of [field_error] in collinear or directional mode *)
Variable point_error : bool -> vec3 -> vec3 -> vec3 -> vec3 -> float.
(** [np.mean] of a float array *)
Variable np_mean : list float -> float.

Definition get_3d_vectors (manalyser : val) (eye : string) (repeats_separately vertical_hardborder : val)
  : M VectorField :=
  let! a := an_obj manalyser in
  let! an := get_an a in
  emit (EGet a an eye) ;;
  match geometry an eye repeats_separately vertical_hardborder with
  | Some vf => ret vf
  | None => raise DataUnavailable
  end.

Fixpoint zip4_with (f : vec3 -> vec3 -> vec3 -> vec3 -> float)
    (pA vA pB vB : list vec3) : list float :=
  match pA, vA, pB, vB with
  | a :: pA', b :: vA', c :: pB', d :: vB' => f a b c d :: zip4_with f pA' vA' pB' vB'
  | _, _, _, _ => []
  end.

(** Modelled from the spec: [field_error] of [pupilanalysis.drosom.optic_flow]
    (not among the sources), §6: given two point/vector field pairs of one
    length it returns one error per point of the first field, in collinear
    or directional mode; fields of different lengths are rejected. *)
Definition field_error (pA vA pB vB : list vec3) (colinear : val) : M (list float) :=
  emit (EFieldError colinear) ;;
  let! c := truthy colinear in
  if Nat.eqb (length pA) (length vA) && Nat.eqb (length pA) (length pB)
     && Nat.eqb (length pA) (length vB)
  then ret (zip4_with (point_error c) pA vA pB vB)
  else raise ValueError.

(** ** [plot_3d_vectormap] *)

Definition vectormap_params : list string :=
  ["manalyser"; "arrow_rotations"; "guidance"; "draw_sphere"; "hide_behind";
   "rhabdomeres"; "elev"; "azim"; "color"; "repeats_separately";
   "vertical_hardborder"; "i_frame"; "pitch_rot"; "roll_rot"; "yaw_rot";
   "animation"; "animation_type"; "animation_variable"; "ax"].

(** [colors]: the [EYE_COLORS] dict, or a list of [n] colours *)
Inductive colours := EyeColours | ColourList (n : nat).

(** [colors[eye]] or [colors[i_rotation]] *)
Definition colour_for (c : colours) (i : nat) (eye : string) : M unit :=
  match c with
  | EyeColours => if String.eqb eye "right" || String.eqb eye "left" then ret tt else raise KeyError
  | ColourList n => if Nat.ltb i n then ret tt else raise IndexError
  end.

(** The [manalyser_type] test: [true] for 'OAnalyser', with the colours. *)
Definition vectormap_type (an : Analyser) (arrow_rotations : val) : M (bool * colours) :=
  if String.eqb (an_class an) "OAnalyser" then
    let! n := py_len arrow_rotations in
    if Nat.eqb n 1 then
      let! x0 := getitem arrow_rotations 0 in ret (py_eq_int x0 0, EyeColours)
    else ret (false, EyeColours)
  else if String.eqb (an_class an) "MAverager" then
    match manalysers an with
    | None => raise AttributeError
    | Some parts => ret (forallb (String.eqb "OAnalyser") parts, EyeColours)
    end
  else if String.eqb (an_class an) "FAnalyser" then ret (false, ColourList 5)
  else ret (false, EyeColours).

Definition plot_3d_vectormap (pos : list val) (kw : list (string * val))
  : M (val * list (string * VectorField)) :=
  let! bk := bind_args vectormap_params true pos kw in
  let b := fst bk in
  let! manalyser := req b "manalyser" in
  let arrow_rotations := arg b "arrow_rotations" (VRef DEFAULT_VECTORMAP_ARROWS) in
  let hide_behind := arg b "hide_behind" (VBool true) in
  let rhabdomeres := arg b "rhabdomeres" (VBool true) in
  let elev := arg b "elev" VNone in
  let azim := arg b "azim" VNone in
  let repeats_separately := arg b "repeats_separately" (VBool false) in
  let vertical_hardborder := arg b "vertical_hardborder" (VBool true) in
  let pitch_rot := arg b "pitch_rot" VNone in
  let roll_rot := arg b "roll_rot" VNone in
  let yaw_rot := arg b "yaw_rot" VNone in
  let animation_type := arg b "animation_type" VNone in
  let animation_variable := arg b "animation_variable" VNone in
  let ax := arg b "ax" VNone in
  let! a := an_obj manalyser in
  emit (ECall "plot_3d_vectormap" a) ;;
  let! an := get_an a in
  let! tc := vectormap_type an arrow_rotations in
  let is_oanalyser := fst tc in
  (* _set_analyser_attributes({'pitch_rot': ..., 'roll_rot': ..., 'yaw_rot': ...}) *)
  let! d := new_obj (ODict [("pitch_rot", pitch_rot); ("roll_rot", roll_rot); ("yaw_rot", yaw_rot)]) in
  _set_analyser_attributes d true false [] ;;
  let colors := if is_oanalyser then ColourList 3 else snd tc in
  (if is_oanalyser then
     let! x0 := getitem arrow_rotations 0 in
     if py_eq_int x0 0 then
       let! n := py_len arrow_rotations in
       when (Nat.eqb n 1) (list_append arrow_rotations (VInt 29))
     else ret tt
   else ret tt) ;;
  let! x := (if is_none ax then new_axis else ax_obj ax) in
  let! an0 := get_an a in
  let original_rotation := vector_rotation an0 in
  let! camera := (if py_eq_str animation_type "rotate_plot" then
                    let! l := seq_items animation_variable in
                    match l with [e; z] => ret (e, z) | _ => raise ValueError end
                  else ret (elev, azim)) in
  let! rh := truthy rhabdomeres in
  (if is_oanalyser && rh then
     setattr_an a "vector_rotation" (VInt 0) ;;
     let! an1 := get_an a in
     mfor (eyes an1) (fun eye =>
       let! _ := get_3d_vectors manalyser eye repeats_separately vertical_hardborder in ret tt)
   else ret tt) ;;
  let! rotations := seq_items arrow_rotations in
  let! vectors :=
    mfold (combine (seq 0 (length rotations)) rotations) [] (fun vectors ir =>
      let! an1 := get_an a in
      mfold (eyes an1) vectors (fun vectors eye =>
        colour_for colors (fst ir) eye ;;
        (* [rotation is not None or rotation != 0] always holds *)
        setattr_an a "vector_rotation" (snd ir) ;;
        let! vf := get_3d_vectors manalyser eye repeats_separately vertical_hardborder in
        (if is_oanalyser && rh then
           (if Nat.ltb (fst ir) 3 then ret tt else raise IndexError)   (* REPEAT_COLORS[i_rotation] *)
         else ret tt) ;;
        ret (vectors_set vectors eye vf))) in
  setattr_an a "vector_rotation" original_rotation ;;
  ret (VAx x, vectors).

(** ** [plot_3d_differencemap] *)

Definition differencemap_params : list string :=
  ["manalyser1"; "manalyser2"; "ax"; "elev"; "azim"; "colinear"; "colorbar";
   "colorbar_text"; "colorbar_ax"; "reverse_errors"; "colorbar_text_positions";
   "i_frame"; "arrow_rotations"; "pitch_rot"; "yaw_rot"; "roll_rot"].

Record DiffParams := mkDiffParams {
  dm_manalyser1 : val; dm_manalyser2 : val; dm_ax : val;
  dm_elev : val; dm_azim : val; dm_colinear : val; dm_colorbar : val;
  dm_colorbar_text : val; dm_colorbar_ax : val; dm_reverse_errors : val;
  dm_colorbar_text_positions : val; dm_i_frame : val; dm_arrow_rotations : val;
  dm_pitch_rot : val; dm_yaw_rot : val; dm_roll_rot : val
}.

Definition diff_params (b : list (string * val)) : M DiffParams :=
  let! m1 := req b "manalyser1" in
  let! m2 := req b "manalyser2" in
  ret (mkDiffParams m1 m2 (arg b "ax" VNone) (arg b "elev" (VInt 10)) (arg b "azim" (VInt 70))
         (arg b "colinear" (VBool true)) (arg b "colorbar" (VBool true))
         (arg b "colorbar_text" (VBool true)) (arg b "colorbar_ax" VNone)
         (arg b "reverse_errors" (VBool false))
         (arg b "colorbar_text_positions" DEFAULT_COLORBAR_TEXT_POSITIONS)
         (arg b "i_frame" (VInt 0)) (arg b "arrow_rotations" (VRef DEFAULT_DIFFERENCEMAP_ARROWS))
         (arg b "pitch_rot" VNone) (arg b "yaw_rot" VNone) (arg b "roll_rot" VNone)).

(** the azimuth ranges of [surface_plot] for an eye *)
Definition phi_ranges (eye : string) : list phi_range :=
  if String.eqb eye "left" then [mkPhi 1 3 50] else [mkPhi 0 1 25; mkPhi 3 4 25].

(** One iteration of [for eye in manalyser1.eyes]. *)
Definition differencemap_eye (manalyser1 manalyser2 : val) (x : nat) (colinear reverse_errors : val)
    (eye : string) : M (list float) :=
  let! f1 := get_3d_vectors manalyser1 eye (VBool false) (VBool true) in
  let! f2 := get_3d_vectors manalyser2 eye (VBool false) (VBool true) in
  let! errors := field_error (fst f1) (snd f1) (fst f2) (snd f2) colinear in
  let! rev := truthy reverse_errors in
  let errors := if rev then map one_minus errors else errors in
  mfor (phi_ranges eye) (fun phi => emit (ESurface x eye phi)) ;;
  ret errors.

(** [cax.text(pos[i][0], pos[i][1], ..., ha=pos[i][2], va=pos[i][3])] *)
Definition colorbar_text_at (positions : val) (i : nat) : M unit :=
  let! p := getitem positions i in
  getitem p 0 ;; getitem p 1 ;; getitem p 2 ;; getitem p 3 ;; ret tt.

Definition set_differencemap_colorbar (ax : Axis) (cax : nat) : Axis :=
  mkAxis (Some cax) (pupil_compare_errors ax) (pupil_compare_rotations ax)
         (pupil_compare_reverse_errors ax) (extra_illustrate_ax ax) (illustrate_ax ax)
         (error_ax ax) (colorbar_ax ax) (cbox_set ax).

(** The COLORBAR block: attached only when the target has no marker yet. *)
Definition colorbar_block (x : nat) (p : DiffParams) : M unit :=
  let! cb := truthy (dm_colorbar p) in
  let! marked := (if cb then
                    let! axr := get_ax x in
                    ret (negb (bool_decide (differencemap_colorbar axr = None)))
                  else ret true) in
  if cb && negb marked then
    let! cax := (if is_none (dm_colorbar_ax p) then new_axis else ax_obj (dm_colorbar_ax p)) in
    emit (EColorbar x cax) ;;
    update_ax x (fun axr => set_differencemap_colorbar axr cax) ;;
    let! ct := truthy (dm_colorbar_text p) in
    when ct (
      let! col := truthy (dm_colinear p) in
      if col then
        colorbar_text_at (dm_colorbar_text_positions p) 0 ;;
        colorbar_text_at (dm_colorbar_text_positions p) 2
      else
        colorbar_text_at (dm_colorbar_text_positions p) 0 ;;
        colorbar_text_at (dm_colorbar_text_positions p) 1 ;;
        colorbar_text_at (dm_colorbar_text_positions p) 2)
  else ret tt.

Definition plot_3d_differencemap_body (p : DiffParams) : M (val * list float) :=
  let! x := (if is_none (dm_ax p) then new_axis else ax_obj (dm_ax p)) in
  let! ar := truthy (dm_arrow_rotations p) in
  (* [original_rotation] is only bound when [arrow_rotations] is truthy *)
  let! original_rotation :=
    (if ar then
       let! m2 := an_obj (dm_manalyser2 p) in
       let! an2 := get_an m2 in
       let! r0 := getitem (dm_arrow_rotations p) 0 in
       setattr_an m2 "vector_rotation" r0 ;;
       ret (vector_rotation an2)
     else ret VNone) in
  when (negb (is_none (dm_pitch_rot p)))
    (let! m2 := an_obj (dm_manalyser2 p) in setattr_an m2 "pitch_rot" (dm_pitch_rot p)) ;;
  when (negb (is_none (dm_yaw_rot p)))
    (let! m2 := an_obj (dm_manalyser2 p) in setattr_an m2 "yaw_rot" (dm_yaw_rot p)) ;;
  when (negb (is_none (dm_roll_rot p)))
    (let! m2 := an_obj (dm_manalyser2 p) in setattr_an m2 "roll_rot" (dm_roll_rot p)) ;;
  let! m1 := an_obj (dm_manalyser1 p) in
  let! an1 := get_an m1 in
  let! all_errors :=
    mfold (eyes an1) [] (fun all_errors eye =>
      let! errors := differencemap_eye (dm_manalyser1 p) (dm_manalyser2 p) x
                       (dm_colinear p) (dm_reverse_errors p) eye in
      ret (all_errors ++ [errors])%list) in
  let! errors := np_concatenate all_errors in
  colorbar_block x p ;;
  let! ar' := truthy (dm_arrow_rotations p) in
  when ar' (let! m2 := an_obj (dm_manalyser2 p) in
            setattr_an m2 "vector_rotation" original_rotation) ;;
  ret (VAx x, errors).

Definition plot_3d_differencemap (pos : list val) (kw : list (string * val))
  : M (val * list float) :=
  let! bk := bind_args differencemap_params false pos kw in
  let! p := diff_params (fst bk) in
  plot_3d_differencemap_body p.

(** ** [compare_3d_vectormaps] *)

Definition compare_params : list string :=
  ["manalyser1"; "manalyser2"; "axes"; "illustrate"; "total_error"; "compact";
   "animation"; "animation_type"; "animation_variable"; "optimal_ranges";
   "pulsation_length"; "biphasic"; "kwargs1"; "kwargs2"; "kwargsD"].

Record CmpParams := mkCmpParams {
  cp_manalyser1 : val; cp_manalyser2 : val; cp_axes : val;
  cp_illustrate : val; cp_total_error : val; cp_compact : val;
  cp_animation : val; cp_animation_type : val; cp_animation_variable : val;
  cp_optimal_ranges : val; cp_pulsation_length : val; cp_biphasic : val;
  cp_kwargs1 : val; cp_kwargs2 : val; cp_kwargsD : val;
  cp_kwargs : list (string * val)        (** the catch-all [**kwargs] *)
}.

Definition cmp_params (b kwargs : list (string * val)) : M CmpParams :=
  let! m1 := req b "manalyser1" in
  let! m2 := req b "manalyser2" in
  ret (mkCmpParams m1 m2 (arg b "axes" VNone) (arg b "illustrate" (VBool true))
         (arg b "total_error" (VBool true)) (arg b "compact" (VBool false))
         (arg b "animation" VNone) (arg b "animation_type" VNone)
         (arg b "animation_variable" VNone) (arg b "optimal_ranges" VNone)
         (arg b "pulsation_length" (VInt 1)) (arg b "biphasic" (VBool false))
         (arg b "kwargs1" (VRef DEFAULT_KWARGS1)) (arg b "kwargs2" (VRef DEFAULT_KWARGS2))
         (arg b "kwargsD" (VRef DEFAULT_KWARGSD)) kwargs).

(** [fig.add_subplot(...)] repeated [n] times *)
Fixpoint new_axes (n : nat) : M (list val) :=
  match n with
  | O => ret []
  | S n' => let! x := new_axis in let! xs := new_axes n' in ret (VAx x :: xs)
  end.

(** a value of the heap as seen by the trace, without effects *)
Definition peek_dict (s : State) (v : val) (k : string) : val :=
  match v with
  | VRef r => match heap s !! r with
              | Some (ODict d) => match dget d k with Some x => x | None => VNone end
              | _ => VNone
              end
  | _ => VNone
  end.

Definition py_is (v w : val) : bool :=
  match v, w with VAn a, VAn b => Nat.eqb a b | _, _ => false end.

(** [lo < v] on numbers *)
Definition py_lt (lo v : val) : M bool :=
  let! a := as_number lo in let! b := as_number v in ret (Z.ltb a b).

(** [optimal_range[0] < animation_variable < optimal_range[1]] *)
Definition in_optimal_range (optimal_range animation_variable : val) : M bool :=
  let! lo := getitem optimal_range 0 in
  let! c1 := py_lt lo animation_variable in
  if c1 then let! hi := getitem optimal_range 1 in py_lt animation_variable hi
  else ret false.

(** [np.min(v)] of a non-empty sequence of numbers *)
Definition np_min (v : val) : M Z :=
  let! l := seq_items v in
  let! zs := mfold l [] (fun zs x => let! z := as_number x in ret (zs ++ [z])%list) in
  match zs with
  | [] => raise ValueError
  | z :: zs' => ret (fold_left Z.min zs' z)
  end.

Definition set_series (ax : Axis) (errs : option (list float)) (rots : option (list val)) : Axis :=
  mkAxis (differencemap_colorbar ax) errs rots (pupil_compare_reverse_errors ax)
         (extra_illustrate_ax ax) (illustrate_ax ax) (error_ax ax) (colorbar_ax ax) (cbox_set ax).

Definition set_reverse_series (ax : Axis) (rerrs : option (list float)) : Axis :=
  mkAxis (differencemap_colorbar ax) (pupil_compare_errors ax) (pupil_compare_rotations ax) rerrs
         (extra_illustrate_ax ax) (illustrate_ax ax) (error_ax ax) (colorbar_ax ax) (cbox_set ax).

Definition set_extra_illustrate_ax (ax : Axis) (e : nat) : Axis :=
  mkAxis (differencemap_colorbar ax) (pupil_compare_errors ax) (pupil_compare_rotations ax)
         (pupil_compare_reverse_errors ax) (Some e) (illustrate_ax ax) (error_ax ax)
         (colorbar_ax ax) (cbox_set ax).

(** The running error series of the total-error panel:
    [if getattr(ax, 'pupil_compare_errors', None) is None: ... = []], then
    one [append] to each list. *)
Definition accumulate (x : nat) (mean_error : float) (animation_variable : val) : M unit :=
  let! axr := get_ax x in
  (match pupil_compare_errors axr with
   | None => update_ax x (fun r => set_series r (Some []) (Some []))
   | Some _ => ret tt
   end) ;;
  (* ax.pupil_compare_errors.append(np.mean(errors)) *)
  let! axr := get_ax x in
  (match pupil_compare_errors axr with
   | Some errs =>
       update_ax x (fun r => set_series r (Some (errs ++ [mean_error])%list) (pupil_compare_rotations r))
   | None => raise AttributeError
   end) ;;
  (* ax.pupil_compare_rotations.append(animation_variable) *)
  let! axr := get_ax x in
  match pupil_compare_rotations axr with
  | Some rots =>
      emit (EAccumulate x animation_variable) ;;
      update_ax x (fun r => set_series r (pupil_compare_errors r) (Some (rots ++ [animation_variable])%list))
  | None => raise AttributeError
  end.

Definition tilt_types : list string := ["pitch_rot"; "roll_rot"; "yaw_rot"].

Definition is_tilt (v : val) : bool :=
  match v with VStr s => existsb (String.eqb s) tilt_types | _ => false end.

(** the illustration panel, as far as it reads or writes modelled state *)
Definition illustration (p : CmpParams) (axes : val) (iax : nat) : M bool :=
  let av := cp_animation_variable p in
  let! opt := truthy (cp_optimal_ranges p) in
  let! optimal :=
    (if opt then
       let! ranges := seq_items (cp_optimal_ranges p) in
       mfold ranges false (fun o r => let! c := in_optimal_range r av in ret (o || c))
     else ret false) in
  let! _ := getitem axes iax in
  (if py_eq_str (cp_animation_type p) "rotate_arrows" then
     let! _ := as_number av in                          (* math.radians(R6R3line + animation_variable) *)
     let! r0 := getitem (cp_optimal_ranges p) 0 in      (* np.mean(optimal_ranges[0][0:2]) *)
     let! r0l := seq_items r0 in
     mfor (firstn 2 r0l) (fun y => let! _ := as_number y in ret tt) ;;
     let! m1 := an_obj (cp_manalyser1 p) in
     let! an1 := get_an m1 in
     let! _ := first_part_class an1 in
     let! _ := first_part_class an1 in
     ret tt
   else if is_tilt (cp_animation_type p) then
     let! _ := as_number av in ret tt                   (* rotate(image, animation_variable) *)
   else ret tt) ;;
  let! optimal :=
    (if opt then
       let! ranges := seq_items (cp_optimal_ranges p) in
       mfold ranges optimal (fun o r =>
         let! c := in_optimal_range r av in
         if c then let! _ := getitem r 2 in ret true else ret o)
     else ret optimal) in
  let! m1 := an_obj (cp_manalyser1 p) in
  let! an1 := get_an m1 in
  let! c1 := first_part_class an1 in
  let! both :=
    (if String.eqb c1 "FAnalyser" then
       let! m2 := an_obj (cp_manalyser2 p) in
       let! an2 := get_an m2 in
       let! c2 := first_part_class an2 in
       ret (String.eqb c2 "OAnalyser")
     else ret false) in
  (if both then
     let! a0 := getitem axes 0 in
     let! x0 := ax_obj a0 in
     let! axr := get_ax x0 in
     (match extra_illustrate_ax axr with
      | None => let! _ := new_axis in                   (* tmp_ax *)
                let! e := new_axis in
                update_ax x0 (fun axr => set_extra_illustrate_ax axr e)
      | Some _ => ret tt                                (* cleared *)
      end) ;;
     let! _ := as_number (pitch_rot an1) in             (* rotate(image, manalyser1.pitch_rot) *)
     let! _ := as_number (cp_pulsation_length p) in ret tt
   else ret tt) ;;
  ret optimal.

Definition compare_3d_vectormaps_body (p : CmpParams) : M val :=
  let m1 := cp_manalyser1 p in
  let m2 := cp_manalyser2 p in
  let at_ := cp_animation_type p in
  let av := cp_animation_variable p in
  let! s0 := get in
  emit (ECompare (mkCompareCall (match dget (cp_kwargs p) "elev" with Some v => v | None => VNone end)
                                (match dget (cp_kwargs p) "azim" with Some v => v | None => VNone end)
                                (cp_illustrate p) (cp_total_error p)
                                (peek_dict s0 (cp_kwargsD p) "colorbar"))) ;;
  let! compact := truthy (cp_compact p) in
  let! total_error := truthy (cp_total_error p) in
  let! illustrate := truthy (cp_illustrate p) in
  let! axes :=
    (if is_none (cp_axes p) then
       let n_plots := (3 - (if compact then 1 else 0) + (if total_error then 1 else 0)
                         + (if illustrate then 1 else 0))%nat in
       let! xs := new_axes n_plots in
       new_obj (OList xs)
     else ret (cp_axes p)) in
  (* kwargs1 = kwargs.copy(); kwargs2 = kwargs.copy() *)
  let kwargs1 := cp_kwargs p in
  let kwargs2 := cp_kwargs p in
  let! k12 :=
    (if py_eq_str at_ "rotate_arrows" then
       let! l := new_obj (OList [av]) in
       dict_setitem (cp_kwargsD p) "colorbar_text_positions"
         (VTuple [VTuple [VInt 0; VInt 1; VStr "center"; VStr "bottom"];
                  VTuple [VInt 1; VInt 0; VStr "left"; VStr "center"];
                  VTuple [VInt 0; VInt 0; VStr "center"; VStr "top"]]) ;;
       let! a1 := an_obj m1 in
       let! an1 := get_an a1 in
       when (String.eqb (an_class an1) "FAnalyser") (setattr_an a1 "constant_points" (VBool true)) ;;
       ret (kwargs1, dset kwargs2 "arrow_rotations" l)
     else if is_tilt at_ then
       dict_setitem (cp_kwargsD p) "colinear" (VBool false) ;;
       ret (kwargs1, dset kwargs2 (match at_ with VStr t => t | _ => "" end) av)
     else if py_eq_str at_ "rotate_plot" then
       let! e := getitem av 0 in let kwargs1 := dset kwargs1 "elev" e in
       let! z := getitem av 1 in let kwargs1 := dset kwargs1 "azim" z in
       let! e := getitem av 0 in let kwargs2 := dset kwargs2 "elev" e in
       let! z := getitem av 1 in let kwargs2 := dset kwargs2 "azim" z in
       ret (kwargs1, kwargs2)
     else ret (kwargs1, kwargs2)) in
  (* set 10 deg pitch for flow *)
  let! k12 :=
    mfold [m1; m2] k12 (fun k12 m =>
      let! a := an_obj m in
      let! an := get_an a in
      let! c := first_part_class an in
      if String.eqb c "FAnalyser" && negb (py_eq_str at_ "pitch_rot") then
        let k1 := if py_is m m1 then dset (fst k12) "pitch_rot" (VInt 10) else fst k12 in
        let k2 := if py_is m m2 then dset (snd k12) "pitch_rot" (VInt 10) else snd k12 in
        setattr_an a "pitch_rot" (VInt 10) ;;
        ret (k1, k2)
      else ret k12) in
  let kwargs1 := fst k12 in
  let! a2 := an_obj m2 in
  let! an2 := get_an a2 in
  let! kwargs2 :=
    (if String.eqb (an_class an2) "MAverage" then
       let! c := first_part_class an2 in
       ret (if String.eqb c "OAnalyser" then dset (snd k12) "arrows" (VBool false) else snd k12)
     else ret (snd k12)) in
  let iax := 0%nat in
  let! ax := getitem axes iax in
  let! kw := call_kwargs [("animation_type", at_); ("ax", ax)] [kwargs1] in
  let! _ := plot_3d_vectormap [m1] kw in
  let iax := if compact then iax else S iax in
  let! ax := getitem axes iax in
  let! kw := call_kwargs [("animation_type", at_); ("ax", ax)] [kwargs2] in
  let! _ := plot_3d_vectormap [m2] kw in
  let! biphasic := truthy (cp_biphasic p) in
  let! rr :=
    (if biphasic then
       let iax := S iax in
       let! kwargsD := dict_items (cp_kwargsD p) in
       let kwargsDr := dset kwargsD "colorbar" (VBool false) in
       let! ax := getitem axes iax in
       let! kw := call_kwargs [("ax", ax); ("reverse_errors", VBool true)] [kwargsDr; kwargs2] in
       let! r := plot_3d_differencemap [m1; m2] kw in
       ret (iax, snd r)
     else ret (iax, [])) in
  let iax := S (fst rr) in
  let reverse_errors := snd rr in
  let! ax := getitem axes iax in
  let! kwargsD := dict_items (cp_kwargsD p) in
  let! kw := call_kwargs [("ax", ax)] [kwargsD; kwargs2] in
  let! d := plot_3d_differencemap [m1; m2] kw in
  let errors := snd d in
  let! io := (if illustrate then
                let iax := S iax in
                let! optimal := illustration p axes iax in ret (iax, optimal)
              else ret (iax, false)) in
  let iax := fst io in
  (if total_error then
     let iax := S iax in
     let! axv := getitem axes iax in
     let! x := ax_obj axv in
     accumulate x (np_mean errors) av ;;
     (if is_none (cp_animation p) then ret tt
      else let! _ := np_min (cp_animation p) in ret tt) ;;   (* set_xlim(np.min(animation), ...) *)
     (if is_none av then ret tt else let! _ := as_number av in ret tt) ;;   (* float(animation_variable) *)
     let! _ := np_min (cp_animation p) in                      (* np.min(animation) < -100 *)
     when biphasic (
       update_ax x (fun axr =>
         let rerrs := match pupil_compare_reverse_errors axr with Some l => l | None => [] end in
         set_reverse_series axr (Some (rerrs ++ [np_mean reverse_errors])%list)))
   else ret tt) ;;
  ret axes.

Definition compare_3d_vectormaps (pos : list val) (kw : list (string * val)) : M val :=
  let! bk := bind_args compare_params true pos kw in
  let! p := cmp_params (fst bk) (snd bk) in
  compare_3d_vectormaps_body p.

(** ** [compare_3d_vectormaps_manyviews] *)

(** [copy.deepcopy] of a value; [memo] maps copied heap objects to their
    copies, so that sharing inside the copied value is kept.  Analyser and
    Axes objects inside the value are not copied by this model. *)
Fixpoint deepcopy (fuel : nat) (memo : list (nat * nat)) (v : val) : M (val * list (nat * nat)) :=
  match fuel with
  | O => raise ValueError
  | S fuel' =>
      match v with
      | VRef r =>
          match find (fun p => Nat.eqb (fst p) r) memo with
          | Some (_, r') => ret (VRef r', memo)
          | None =>
              let! o := heap_obj r in
              match o with
              | OList l =>
                  let! res := mfold l ([], memo) (fun acc x =>
                                let! cm := deepcopy fuel' (snd acc) x in
                                ret ((fst acc ++ [fst cm])%list, snd cm)) in
                  let! c := new_obj (OList (fst res)) in
                  match c with
                  | VRef r' => ret (c, (r, r') :: snd res)
                  | _ => ret (c, snd res)
                  end
              | ODict d =>
                  let! res := mfold d ([], memo) (fun acc kv =>
                                let! cm := deepcopy fuel' (snd acc) (snd kv) in
                                ret ((fst acc ++ [(fst kv, fst cm)])%list, snd cm)) in
                  let! c := new_obj (ODict (fst res)) in
                  match c with
                  | VRef r' => ret (c, (r, r') :: snd res)
                  | _ => ret (c, snd res)
                  end
              end
          end
      | VTuple l =>
          let! res := mfold l ([], memo) (fun acc x =>
                        let! cm := deepcopy fuel' (snd acc) x in
                        ret ((fst acc ++ [fst cm])%list, snd cm)) in
          ret (VTuple (fst res), snd res)
      | _ => ret (v, memo)
      end
  end.

Definition deepcopy_kwargs (kwargs : list (string * val)) : M (list (string * val)) :=
  let! res := mfold kwargs ([], []) (fun acc kv =>
                let! cm := deepcopy 64 (snd acc) (snd kv) in
                ret ((fst acc ++ [(fst kv, fst cm)])%list, snd cm)) in
  ret (fst res).

Definition set_illustrate_ax (ax : Axis) (i : nat) : Axis :=
  mkAxis (differencemap_colorbar ax) (pupil_compare_errors ax) (pupil_compare_rotations ax)
         (pupil_compare_reverse_errors ax) (extra_illustrate_ax ax) (Some i) (error_ax ax)
         (colorbar_ax ax) (cbox_set ax).
Definition set_error_ax (ax : Axis) (e : nat) : Axis :=
  mkAxis (differencemap_colorbar ax) (pupil_compare_errors ax) (pupil_compare_rotations ax)
         (pupil_compare_reverse_errors ax) (extra_illustrate_ax ax) (illustrate_ax ax) (Some e)
         (colorbar_ax ax) (cbox_set ax).
Definition set_colorbar_ax (ax : Axis) (c : nat) : Axis :=
  mkAxis (differencemap_colorbar ax) (pupil_compare_errors ax) (pupil_compare_rotations ax)
         (pupil_compare_reverse_errors ax) (extra_illustrate_ax ax) (illustrate_ax ax) (error_ax ax)
         (Some c) (cbox_set ax).
Definition set_cbox (ax : Axis) : Axis :=
  mkAxis (differencemap_colorbar ax) (pupil_compare_errors ax) (pupil_compare_rotations ax)
         (pupil_compare_reverse_errors ax) (extra_illustrate_ax ax) (illustrate_ax ax) (error_ax ax)
         (colorbar_ax ax) true.

(** [getattr(axes[0], name)] without default *)
Definition attr_of (o : option nat) : M nat :=
  match o with Some i => ret i | None => raise AttributeError end.

Definition views : list (Z * Z) := [(50, 90); (0, 90); (-50, 90)]%Z.

Definition manyviews_params : list string := ["axes"; "column_titles"; "row_titles"].

Definition compare_3d_vectormaps_manyviews (pos : list val) (kw : list (string * val)) : M unit :=
  let! bk := (match bind_kw manyviews_params true [] [] kw with
              | Some bk => ret bk
              | None => raise TypeError
              end) in
  let args := pos in
  let kwargs := snd bk in
  let axes := arg (fst bk) "axes" VNone in
  let biphasic := match dget kwargs "animation_type" with Some t => is_tilt t | None => false end in
  let cols := if biphasic then 5%nat else 4%nat in
  let rows := length views in
  let! axes :=
    (if is_none axes then
       let! xs := new_axes (rows * (cols - 1)) in
       let! x0 := (match xs with VAx x0 :: _ => ret x0 | _ => raise IndexError end) in
       (* getattr(kwargs, 'illustrate_ax', None) is None for a dict *)
       let! il := new_axis in
       update_ax x0 (fun r => set_illustrate_ax r il) ;;
       update_ax il set_cbox ;;
       (* getattr(kwargs, 'total_error', None) is None for a dict *)
       let! _ := new_axis in                     (* removed again *)
       let! e := new_axis in
       update_ax x0 (fun r => set_error_ax r e) ;;
       let! _ := new_axis in                     (* tmp_ax *)
       let! c := new_axis in
       update_ax x0 (fun r => set_colorbar_ax r c) ;;
       ret xs
     else seq_items axes) in
  let! a0 := (match axes with a0 :: _ => ret a0 | [] => raise IndexError end) in
  let! x0 := ax_obj a0 in
  (* axes[0].error_ax.clear() keeps the attributes of the error axes *)
  (* column titles *)
  mfor [0; 1]%nat (fun i =>
    let! m := (match args !! i with Some m => ret m | None => raise IndexError end) in
    let! a := an_obj m in
    let! an := get_an a in
    let! c := first_part_class an in
    let! _ := first_part_class an in
    ret tt) ;;
  let! m := (match args !! 0%nat with Some m => ret m | None => raise IndexError end) in
  let! a := an_obj m in
  let! an := get_an a in
  let! _ := first_part_class an in
  (* for ax in axes: ax.set_axis_off() *)
  mfor axes (fun v => let! _ := ax_obj v in ret tt) ;;
  let naxes := (cols - 1)%nat in
  mfor [0; 1; 2]%nat (fun i =>
    let! viewargs := deepcopy_kwargs kwargs in
    let ev := match views !! i with Some ev => ev | None => (0, 0)%Z end in
    let viewargs := dset viewargs "elev" (VInt (fst ev)) in
    let viewargs := dset viewargs "azim" (VInt (snd ev)) in
    let! r0 := get_ax x0 in
    let! il := attr_of (illustrate_ax r0) in
    let! er := attr_of (error_ax r0) in
    let! axl := new_obj (OList (firstn naxes (skipn (i * naxes) axes) ++ [VAx il; VAx er])%list) in
    if Nat.eqb i 0 then
      let! cb := attr_of (colorbar_ax r0) in
      let! kwD := new_obj (ODict [("colorbar", VBool true); ("colorbar_ax", VAx cb)]) in
      let! kw := call_kwargs [("axes", axl); ("biphasic", VBool biphasic); ("kwargsD", kwD);
                              ("illustrate", VBool true); ("total_error", VBool true)] [viewargs] in
      let! _ := compare_3d_vectormaps args kw in ret tt
    else
      let! kwD := new_obj (ODict [("colorbar", VBool false)]) in
      let! kw := call_kwargs [("axes", axl); ("biphasic", VBool biphasic); ("kwargsD", kwD);
                              ("illustrate", VBool false); ("total_error", VBool false)] [viewargs] in
      let! _ := compare_3d_vectormaps args kw in ret tt) ;;
  (* axes[0].illustrate_ax.set_position(axes[0].illustrate_ax.cbox) *)
  let! r0 := get_ax x0 in
  let! il := attr_of (illustrate_ax r0) in
  let! ri := get_ax il in
  if cbox_set ri then ret tt else raise AttributeError.

End Renderers.

(** * Specification vocabulary *)

(** [frame R m]: every run of [m], returning or raising, relates its start
    and end states by [R]. *)
Definition frame (R : State -> State -> Prop) {A} (m : M A) : Prop :=
  forall s, R s (fst (m s)).

(** the analyser store and the heap are untouched *)
Definition same_an_heap (s s' : State) : Prop :=
  analysers s' = analysers s /\ heap s' = heap s.

(** the heap is untouched *)
Definition same_heap (s s' : State) : Prop := heap s' = heap s.

(** the run only appends events satisfying [P] to the trace *)
Definition events_only (P : event -> Prop) (s s' : State) : Prop :=
  exists l, trace s' = (trace s ++ l)%list /\ Forall P l.

Definition same_an (s s' : State) : Prop := analysers s' = analysers s.


Definition override (v old : val) : val := if is_none v then old else v.

(** the effect of [setattr_an] on the record *)
Definition set_attr (name : string) (an : Analyser) (v : val) : Analyser :=
  if String.eqb name "vector_rotation" then set_vector_rotation an v
  else if String.eqb name "pitch_rot" then set_pitch_rot an v
  else if String.eqb name "roll_rot" then set_roll_rot an v
  else if String.eqb name "yaw_rot" then set_yaw_rot an v
  else set_constant_points an v.

Definition apply_tilts (p : DiffParams) (an : Analyser) : Analyser :=
  mkAnalyser (an_class an) (manalysers an) (eyes an) (vector_rotation an)
    (override (dm_pitch_rot p) (pitch_rot an)) (override (dm_roll_rot p) (roll_rot an))
    (override (dm_yaw_rot p) (yaw_rot an)) (constant_points an).

(** the OAnalyser branch of the classification, for a list [[0]] *)
Definition oanalyser_class (an : Analyser) : Prop :=
  an_class an = "OAnalyser" \/
  (an_class an = "MAverager" /\
   (exists parts, manalysers an = Some parts /\ forallb (String.eqb "OAnalyser") parts = true)).


(** a binding with its [kwargs1] and [kwargs2] entries removed *)
Definition drop_kwargs12 (b : list (string * val)) : list (string * val) :=
  List.filter (fun kv => negb (String.eqb (fst kv) "kwargs1" || String.eqb (fst kv) "kwargs2")) b.

(** the parameters [p] with [reverse_errors] replaced by [v] *)
Definition with_reverse_errors (p : DiffParams) (v : val) : DiffParams :=
  mkDiffParams (dm_manalyser1 p) (dm_manalyser2 p) (dm_ax p) (dm_elev p) (dm_azim p)
    (dm_colinear p) (dm_colorbar p) (dm_colorbar_text p) (dm_colorbar_ax p) v
    (dm_colorbar_text_positions p) (dm_i_frame p) (dm_arrow_rotations p)
    (dm_pitch_rot p) (dm_yaw_rot p) (dm_roll_rot p).

(** a run with [g] applied to its result, if it returns *)
Definition post_map {A B} (g : A -> B) (r : State * result A) : State * result B :=
  (fst r, match snd r with Ok a => Ok (g a) | Err e => Err e end).



(** events other than a colorbar attachment *)
Definition not_colorbar (e : event) : Prop :=
  match e with EColorbar _ _ => False | _ => True end.

(** the Axes object [x] is kept as it is *)
Definition keeps_ax (x : nat) (s s' : State) : Prop :=
  forall axr, axes_store s !! x = Some axr -> axes_store s' !! x = Some axr.

(** no colorbar is attached and the Axes object [x] is untouched *)
Definition cb_frame (x : nat) (s s' : State) : Prop :=
  events_only not_colorbar s s' /\ keeps_ax x s s'.

(** the number of colorbars attached for the target [x] in a trace *)
Fixpoint count_colorbars (x : nat) (tr : list event) : nat :=
  match tr with
  | [] => 0
  | EColorbar x' _ :: tr' => (if Nat.eqb x x' then 1 else 0) + count_colorbars x tr'
  | _ :: tr' => count_colorbars x tr'
  end.

(** the target [x] carries the [differencemap_colorbar] marker *)
Definition cb_marked (x : nat) (s : State) : Prop :=
  exists axr, axes_store s !! x = Some axr /\ differencemap_colorbar axr <> None.

(** the surface plots of a trace: target, eye and azimuth range *)
Fixpoint surfaces (tr : list event) : list (nat * string * phi_range) :=
  match tr with
  | [] => []
  | ESurface x eye phi :: tr' => (x, eye, phi) :: surfaces tr'
  | _ :: tr' => surfaces tr'
  end.

Definition not_surface (e : event) : Prop :=
  match e with ESurface _ _ _ => False | _ => True end.

(** every analyser keeps its eye set *)
Definition eyes_kept (s s' : State) : Prop :=
  forall a an, analysers s !! a = Some an ->
  exists an', analysers s' !! a = Some an' /\ eyes an' = eyes an.

(** no surface is plotted and the eye sets are kept *)
Definition surf_frame (s s' : State) : Prop := events_only not_surface s s' /\ eyes_kept s s'.

(** the invocations of [compare_3d_vectormaps] recorded in a trace *)
Fixpoint compare_calls (tr : list event) : list compare_call :=
  match tr with
  | [] => []
  | ECompare c :: tr' => c :: compare_calls tr'
  | _ :: tr' => compare_calls tr'
  end.

(** the number of points appended to running error series in a trace *)
Fixpoint accumulations (tr : list event) : nat :=
  match tr with
  | [] => 0
  | EAccumulate _ _ :: tr' => S (accumulations tr')
  | _ :: tr' => accumulations tr'
  end.

(** the number of colorbars attached in a trace, for any target *)
Fixpoint colorbars (tr : list event) : nat :=
  match tr with
  | [] => 0
  | EColorbar _ _ :: tr' => S (colorbars tr')
  | _ :: tr' => colorbars tr'
  end.

(** events other than an invocation or an accumulation *)
Definition not_cmp_acc (e : event) : Prop :=
  match e with ECompare _ | EAccumulate _ _ => False | _ => True end.

(** events other than an invocation, an accumulation or a colorbar *)
Definition quiet (e : event) : Prop :=
  match e with ECompare _ | EAccumulate _ _ | EColorbar _ _ => False | _ => True end.

(** the dictionary object [r], if it is one, keeps its entry for [k] *)
Definition dict_keeps (r : nat) (k : string) (s s' : State) : Prop :=
  forall d, heap s !! r = Some (ODict d) ->
  exists d', heap s' !! r = Some (ODict d') /\ dget d' k = dget d k.

(** the (elevation, azimuth, illustrate, total_error, colorbar) arguments
    of the three invocations made by [compare_3d_vectormaps_manyviews] *)
Definition manyviews_calls : list compare_call :=
  [mkCompareCall (VInt 50) (VInt 90) (VBool true) (VBool true) (VBool true);
   mkCompareCall (VInt 0) (VInt 90) (VBool false) (VBool false) (VBool false);
   mkCompareCall (VInt (-50)) (VInt 90) (VBool false) (VBool false) (VBool false)].

(** the animation variables appended to the running error series of the
    Axes object [z] in a trace, in order *)
Fixpoint accs (z : nat) (tr : list event) : list val :=
  match tr with
  | [] => []
  | EAccumulate x v :: tr' => if Nat.eqb x z then v :: accs z tr' else accs z tr'
  | _ :: tr' => accs z tr'
  end.

(** the running error series of the Axes object [z]: the errors
    [pupil_compare_errors] and the animation variables
    [pupil_compare_rotations], when both lists exist *)
Definition series_of (s : State) (z : nat) : option (list float * list val) :=
  match axes_store s !! z with
  | Some axr =>
      match pupil_compare_errors axr, pupil_compare_rotations axr with
      | Some es, Some rs => Some (es, rs)
      | _, _ => None
      end
  | None => None
  end.

(** [so'] is the series [so] extended by one entry per animation variable
    of [vs]; a target without a series starts from empty lists *)
Definition series_grows (so so' : option (list float * list val)) (vs : list val) : Prop :=
  match vs with
  | [] => so' = so
  | _ :: _ =>
      exists ms, length ms = length vs /\
      so' = Some (fst (default ([], []) so) ++ ms, snd (default ([], []) so) ++ vs)%list
  end.

(** events other than an accumulation *)
Definition no_acc (e : event) : Prop :=
  match e with EAccumulate _ _ => False | _ => True end.

(** no accumulation, and every running error series is kept *)
Definition series_frame (s s' : State) : Prop :=
  events_only no_acc s s' /\ forall z, series_of s' z = series_of s z.

(** [field_error] is called with [colinear=False] *)
Definition colinear_false (e : event) : Prop :=
  match e with EFieldError c => c = VBool false | _ => True end.

(** the list object [r], if it is one, is at most extended at its end *)
Definition list_extends (r : nat) (s s' : State) : Prop :=
  forall l, heap s !! r = Some (OList l) -> exists l', heap s' !! r = Some (OList (l ++ l')%list).

(** the index [iax] of the total-error panel in [axes] in
    [compare_3d_vectormaps] *)
Definition total_error_slot (compact biphasic illustrate : bool) : nat :=
  let iax := if compact then 0 else 1 in
  let iax := if biphasic then S iax else iax in
  let iax := S iax in
  let iax := if illustrate then S iax else iax in
  S iax.

(** the bound arguments [b] of an invocation, in state [s], select the
    Axes object [y] as the total-error panel *)
Definition total_error_target (s : State) (b : list (string * val)) (y : nat) : Prop :=
  exists c bp il r l,
    arg b "compact" (VBool false) = VBool c /\ arg b "biphasic" (VBool false) = VBool bp /\
    arg b "illustrate" (VBool true) = VBool il /\ arg b "axes" VNone = VRef r /\
    heap s !! r = Some (OList l) /\ l !! total_error_slot c bp il = Some (VAx y).

(** one frame of a [pitch_rot] sweep: [animation_type="pitch_rot"], the
    animation variable [av], [total_error=True] and the target [y] *)
Definition pitch_sweep_call (s : State) (pos : list val) (kw : list (string * val))
    (av : val) (y : nat) : Prop :=
  exists b e, py_bind compare_params true pos kw = Some (b, e) /\
    arg b "animation_type" VNone = VStr "pitch_rot" /\ arg b "animation_variable" VNone = av /\
    arg b "total_error" (VBool true) = VBool true /\ total_error_target s b y.

(** ** Concrete scenarios *)

Definition fl (n : nat) : float := PrimFloat.of_uint63 (Uint63.of_Z (Z.of_nat n)).

(** [0.1] in float64 *)
Definition tenth : float := PrimFloat.div (fl 1) (fl 10).

Definition unit_z : vec3 := (fl 0, fl 0, fl 1).

(** an extraction that yields [n] points for every analyser and eye *)
Definition geo_const (n : nat) (an : Analyser) (eye : string) (rs vh : val) : option VectorField :=
  Some (repeat unit_z n, repeat unit_z n).

(** an extraction that fails while the analyser is rotated by 29 degrees *)
Definition geo_fail29 (an : Analyser) (eye : string) (rs vh : val) : option VectorField :=
  match vector_rotation an with
  | VInt z => if Z.eqb z 29 then None else Some ([], [])
  | _ => Some ([], [])
  end.

Definition perr_zero (c : bool) (a b d e : vec3) : float := fl 0.

Definition mean_len (l : list float) : float := fl (length l).

(** an analyser of class [cls] over both eyes, rotated by [rot] *)
Definition entity (cls part : string) (rot : Z) : Analyser :=
  mkAnalyser cls (Some [part]) ["left"; "right"] (VInt rot) (VInt 0) (VInt 0) (VInt 0) VNone.

(** the state after loading the module, with the analysers [ans] and the
    extra heap objects [objs] *)
Definition scene (ans : list (nat * Analyser)) (objs : list (nat * obj)) : State :=
  mkState (list_to_map objs ∪ module_heap) (list_to_map ans) ∅ [].

(** entity A (0) and entity B (1) *)
Definition scene_AB : State :=
  scene [(0, entity "MAverager" "MAnalyser" 0); (1, entity "MAverager" "MAnalyser" 0)]%nat [].

(** an entity with [vector_rotation = 10] and a caller's list [[29]] at 5 *)
Definition scene_rot10 : State :=
  scene [(0, entity "MAnalyser" "MAnalyser" 10)]%nat [(5, OList [VInt 29])]%nat.

(** an OAnalyser-type entity *)
Definition scene_oanalyser : State :=
  scene [(0, entity "OAnalyser" "OAnalyser" 0)]%nat [].

(** two analysers and an animation list [[-45, 0, 45]] at 6 *)
Definition scene_sweep : State :=
  scene [(0, entity "MAverager" "MAnalyser" 0); (1, entity "MAverager" "MAnalyser" 0)]%nat
        [(6, OList [VInt (-45); VInt 0; VInt 45])]%nat.

(** [scene_sweep] with five Axes objects 0..4 listed in the list object 7 *)
Definition scene_sweep_axes : State :=
  mkState (<[7%nat := OList [VAx 0; VAx 1; VAx 2; VAx 3; VAx 4]]> (heap scene_sweep))
          (analysers scene_sweep)
          (list_to_map [(0, fresh_axis); (1, fresh_axis); (2, fresh_axis); (3, fresh_axis);
                        (4, fresh_axis)])%nat [].

(** entities A (0) and B (1) and one Axes object (0) without a colorbar *)
Definition scene_AB_ax : State :=
  mkState (heap scene_AB) (analysers scene_AB) {[0%nat := fresh_axis]} [].

(** * Frame reasoning *)

Section FrameLaws.
Context (R : State -> State -> Prop) `{!Reflexive R} `{!Transitive R}.

Lemma frame_ret {A} (a : A) : frame R (ret a).
Proof. intros s. simpl. reflexivity. Qed.

Lemma frame_raise {A} (e : exn) : frame R (@raise A e).
Proof. intros s. simpl. reflexivity. Qed.

Lemma frame_get : frame R get.
Proof. intros s. simpl. reflexivity. Qed.

Lemma frame_bind {A B} (m : M A) (k : A -> M B) :
  frame R m -> (forall a, frame R (k a)) -> frame R (bind m k).
Proof.
  intros Hm Hk s. unfold bind. specialize (Hm s).
  destruct (m s) as [s1 [a|e]]; simpl in *; [|exact Hm].
  transitivity s1; [exact Hm | apply Hk].
Qed.

Lemma frame_when (b : bool) (m : M unit) : frame R m -> frame R (when b m).
Proof. intros Hm. destruct b; [exact Hm | apply frame_ret]. Qed.

Lemma frame_mfor {A} (l : list A) (body : A -> M unit) :
  (forall x, frame R (body x)) -> frame R (mfor l body).
Proof.
  intros Hb. induction l as [|x l IH]; simpl.
  - apply frame_ret.
  - apply frame_bind; [apply Hb | intros _; exact IH].
Qed.

Lemma frame_mfold {A B} (l : list A) (acc : B) (body : B -> A -> M B) :
  (forall b a, frame R (body b a)) -> frame R (mfold l acc body).
Proof.
  intros Hb. revert acc. induction l as [|x l IH]; intros acc; simpl.
  - apply frame_ret.
  - apply frame_bind; [apply Hb | intros acc'; apply IH].
Qed.

(** a computation that leaves the state as it is satisfies every reflexive frame *)
Lemma frame_modify (f : State -> State) : (forall s, R s (f s)) -> frame R (modify f).
Proof. intros Hf s. apply Hf. Qed.

Lemma frame_of_eq {A} (m : M A) : frame eq m -> frame R m.
Proof. intros H s. rewrite <- (H s). reflexivity. Qed.

End FrameLaws.

Ltac head_of t := match t with ?f _ => head_of f | _ => t end.

Create HintDb frame discriminated.

(** One step of a frame proof: split binds, loops and branches, use a
    lemma of the [frame] database, or unfold the head definition. *)
Ltac frame_step :=
  match goal with
  | |- forall _, _ => intros ?; cbv beta zeta
  | |- Reflexive _ => typeclasses eauto
  | |- Transitive _ => typeclasses eauto
  | |- frame _ (bind _ _) => apply frame_bind
  | |- frame _ (ret _) => apply frame_ret
  | |- frame _ (raise _) => apply frame_raise
  | |- frame _ get => apply frame_get
  | |- frame _ (modify _) => apply frame_modify; intros ?
  | |- frame _ (when _ _) => apply frame_when
  | |- frame _ (mfor _ _) => apply frame_mfor
  | |- frame _ (mfold _ _ _) => apply frame_mfold
  | |- frame _ (if ?b then _ else _) => destruct b
  | |- frame _ (match ?x with _ => _ end) => destruct x
  | |- frame _ _ => solve [eauto with frame]
  | |- frame _ ?m => let h := head_of m in progress unfold h; cbv beta zeta
  end.

Ltac frame_tac := repeat frame_step.

Section ReadOnly.
Context (R : State -> State -> Prop) `{!Reflexive R} `{!Transitive R}.

Lemma frame_heap_obj r : frame R (heap_obj r).
Proof. frame_tac. Qed.
Lemma frame_seq_items v : frame R (seq_items v).
Proof. frame_tac. Qed.
Lemma frame_dict_items v : frame R (dict_items v).
Proof. frame_tac. Qed.
Lemma frame_getitem v i : frame R (getitem v i).
Proof. frame_tac. Qed.
Lemma frame_py_len v : frame R (py_len v).
Proof. frame_tac. Qed.
Lemma frame_truthy v : frame R (truthy v).
Proof. frame_tac. Qed.
Lemma frame_as_number v : frame R (as_number v).
Proof. frame_tac. Qed.
Lemma frame_an_obj v : frame R (an_obj v).
Proof. frame_tac. Qed.
Lemma frame_get_an a : frame R (get_an a).
Proof. frame_tac. Qed.
Lemma frame_first_part_class an : frame R (first_part_class an).
Proof. frame_tac. Qed.
Lemma frame_get_ax x : frame R (get_ax x).
Proof. frame_tac. Qed.
Lemma frame_ax_obj v : frame R (ax_obj v).
Proof. frame_tac. Qed.
Lemma frame_call_kwargs e sp : frame R (call_kwargs e sp).
Proof. frame_tac. Qed.
Lemma frame_bind_args ps vk pos kw : frame R (bind_args ps vk pos kw).
Proof. frame_tac. Qed.
Lemma frame_req b n : frame R (req b n).
Proof. frame_tac. Qed.
Lemma frame_diff_params b : frame R (diff_params b).
Proof. frame_tac. Qed.
Lemma frame_cmp_params b kw : frame R (cmp_params b kw).
Proof. frame_tac. Qed.
Lemma frame_in_optimal_range r v : frame R (in_optimal_range r v).
Proof. frame_tac. Qed.
Lemma frame_np_min v : frame R (np_min v).
Proof. frame_tac. Qed.
Lemma frame_np_concatenate l : frame R (np_concatenate l).
Proof. frame_tac. Qed.
Lemma frame_colour_for c i e : frame R (colour_for c i e).
Proof. frame_tac. Qed.
Lemma frame_vectormap_type an v : frame R (vectormap_type an v).
Proof. frame_tac. Qed.
Lemma frame_attr_of o : frame R (attr_of o).
Proof. frame_tac. Qed.
Lemma frame_colorbar_text_at v i : frame R (colorbar_text_at v i).
Proof. frame_tac. Qed.

End ReadOnly.

#[export] Hint Resolve frame_heap_obj frame_seq_items frame_dict_items frame_getitem
  frame_py_len frame_truthy frame_as_number frame_an_obj frame_get_an
  frame_first_part_class frame_get_ax frame_ax_obj frame_call_kwargs frame_bind_args
  frame_req frame_diff_params frame_cmp_params frame_in_optimal_range frame_np_min
  frame_np_concatenate frame_colour_for frame_vectormap_type frame_attr_of
  frame_colorbar_text_at : frame.
#[export] Hint Extern 0 (Reflexive _) => typeclasses eauto : frame.
#[export] Hint Extern 0 (Transitive _) => typeclasses eauto : frame.

(** ** Running a computation *)

Lemma frame_run {A} R (m : M A) s s' r : frame R m -> m s = (s', r) -> R s s'.
Proof. intros H E. specialize (H s). rewrite E in H. exact H. Qed.

Lemma bind_ok_inv {A B} (m : M A) (k : A -> M B) s s' b :
  bind m k s = (s', Ok b) -> exists s1 a, m s = (s1, Ok a) /\ k a s1 = (s', Ok b).
Proof.
  unfold bind. destruct (m s) as [s1 [a|e]]; intros H; [eauto | discriminate].
Qed.

Lemma ret_ok_inv {A} (a : A) s s' b : ret a s = (s', Ok b) -> s' = s /\ b = a.
Proof. unfold ret. intros H. inversion H. auto. Qed.

Lemma raise_ok_inv {A} (e : exn) s s' (b : A) : raise e s = (s', Ok b) -> False.
Proof. unfold raise. intros H. discriminate. Qed.

(** Splits a normal run of a chain of [let!] into its steps. *)
Ltac peel H :=
  repeat match type of H with
  | bind _ _ _ = (_, Ok _) =>
      apply bind_ok_inv in H; destruct H as (?s & ?a & ?Hstep & H); cbv beta zeta in H
  end.

(** ** Relations between start and end states *)

#[export] Instance same_an_refl : Reflexive same_an.
Proof. intros s. reflexivity. Qed.
#[export] Instance same_an_trans : Transitive same_an.
Proof. intros s1 s2 s3 H1 H2. unfold same_an in *. congruence. Qed.
#[export] Instance same_heap_refl : Reflexive same_heap.
Proof. intros s. reflexivity. Qed.
#[export] Instance same_heap_trans : Transitive same_heap.
Proof. intros s1 s2 s3 H1 H2. unfold same_heap in *. congruence. Qed.
#[export] Instance same_an_heap_refl : Reflexive same_an_heap.
Proof. intros s. split; reflexivity. Qed.
#[export] Instance same_an_heap_trans : Transitive same_an_heap.
Proof. intros s1 s2 s3 [H1 H1'] [H2 H2']. split; congruence. Qed.
#[export] Instance events_only_refl P : Reflexive (events_only P).
Proof. intros s. exists []. rewrite app_nil_r. auto. Qed.
#[export] Instance events_only_trans P : Transitive (events_only P).
Proof.
  intros s1 s2 s3 (l1 & E1 & F1) (l2 & E2 & F2). exists (l1 ++ l2)%list.
  rewrite E2, E1, app_assoc. split; [reflexivity | apply Forall_app; auto].
Qed.

(** the field extraction and the error computation only record events *)
Lemma frame_get_3d_vectors_ah geometry m eye rs vh :
  frame same_an_heap (get_3d_vectors geometry m eye rs vh).
Proof. frame_tac. all: split; reflexivity. Qed.

Lemma frame_field_error_ah point_error pA vA pB vB c :
  frame same_an_heap (field_error point_error pA vA pB vB c).
Proof. frame_tac. all: split; reflexivity. Qed.

Lemma frame_differencemap_eye_ah geometry point_error m1 m2 x c r eye :
  frame same_an_heap (differencemap_eye geometry point_error m1 m2 x c r eye).
Proof.
  unfold differencemap_eye. frame_tac.
  all: first [apply frame_get_3d_vectors_ah | apply frame_field_error_ah | split; reflexivity].
Qed.

Lemma frame_colorbar_block_ah x p : frame same_an_heap (colorbar_block x p).
Proof. frame_tac. all: split; reflexivity. Qed.

#[export] Hint Resolve frame_get_3d_vectors_ah frame_field_error_ah frame_differencemap_eye_ah
  frame_colorbar_block_ah : frame.

Lemma run_eq {A} (m : M A) s s' r : frame eq m -> m s = (s', r) -> s' = s.
Proof. intros H E. symmetry. exact (frame_run eq m s s' r H E). Qed.

Ltac pure_step H := apply run_eq in H; [subst | frame_tac].

Lemma when_ok_inv b (m : M unit) s s' u :
  when b m s = (s', Ok u) -> (b = true /\ m s = (s', Ok u)) \/ (b = false /\ s' = s).
Proof. destruct b; simpl; [auto | intros H; apply ret_ok_inv in H; right; intuition]. Qed.

Lemma get_an_ok_inv a s s' an : get_an a s = (s', Ok an) -> s' = s /\ analysers s !! a = Some an.
Proof.
  unfold get_an, bind, get. simpl. destruct (analysers s !! a) eqn:E; simpl; intros H.
  - inversion H. subst. auto.
  - discriminate.
Qed.

Lemma an_obj_ok_inv v s s' a : an_obj v s = (s', Ok a) -> s' = s /\ v = VAn a.
Proof. destruct v; simpl; intros H; inversion H; subst; auto. Qed.

Lemma setattr_an_ok_inv a name v s s' u :
  setattr_an a name v s = (s', Ok u) ->
  (exists an, analysers s !! a = Some an) /\ heap s' = heap s /\
  analysers s' = alter (fun an => set_attr name an v) a (analysers s).
Proof.
  unfold setattr_an. intros H. peel H.
  apply get_an_ok_inv in Hstep as [-> Ha]. split; [eauto|].
  unfold set_attr.
  repeat match type of H with
  | (if ?b then _ else _) _ = _ => destruct b
  end; try (apply raise_ok_inv in H; contradiction);
  unfold put_an, modify in H; inversion H; subst; simpl; split; try reflexivity;
  apply map_eq; intros i; destruct (decide (a = i)); simplify_map_eq; reflexivity.
Qed.

(** [when b: manalyser.<name> = v] on the analyser object [m] *)
Lemma when_setattr_ok_inv b m a name v s s' u :
  m = VAn a ->
  when b (let! m2 := an_obj m in setattr_an m2 name v) s = (s', Ok u) ->
  heap s' = heap s /\
  analysers s' = if b then alter (fun an => set_attr name an v) a (analysers s) else analysers s.
Proof.
  intros -> H. apply when_ok_inv in H as [[-> H] | [-> ->]]; [|auto].
  peel H. apply an_obj_ok_inv in Hstep as [-> [= <-]].
  apply setattr_an_ok_inv in H as (_ & ? & ?). auto.
Qed.

Lemma truthy_heap v s t : heap s = heap t -> snd (truthy v s) = snd (truthy v t).
Proof.
  intros E. destruct v; try reflexivity.
  simpl. unfold heap_obj, bind, get. simpl. rewrite E.
  destruct (heap t !! r) as [[l|d]|]; reflexivity.
Qed.

Lemma differencemap_body_an geometry point_error p s s' v a2 an2 :
  dm_manalyser2 p = VAn a2 -> analysers s !! a2 = Some an2 ->
  plot_3d_differencemap_body geometry point_error p s = (s', Ok v) ->
  analysers s' = <[a2 := apply_tilts p an2]> (analysers s).
Proof.
  intros Hm2 Ha2 H. unfold plot_3d_differencemap_body in H. peel H.
  apply ret_ok_inv in H as [-> _].
  apply (frame_run same_an_heap) in Hstep as [A0 H0]; [|frame_tac; split; reflexivity].
  assert (Ht := Hstep0). pure_step Hstep0.
  (* the rotation override *)
  assert (E2 : heap s2 = heap s /\
            if a0 then a1 = vector_rotation an2 /\
                       exists r0, analysers s2 =
                         alter (fun an => set_attr "vector_rotation" an r0) a2 (analysers s)
            else analysers s2 = analysers s).
  { clear -Hstep1 Hm2 Ha2 A0 H0. destruct a0.
    - peel Hstep1. apply ret_ok_inv in Hstep1 as [-> ->].
      rewrite Hm2 in Hstep. apply an_obj_ok_inv in Hstep as [-> [= <-]].
      apply get_an_ok_inv in Hstep0 as [-> Ha]. rewrite A0, Ha2 in Ha. injection Ha as <-.
      pure_step Hstep2.
      apply setattr_an_ok_inv in Hstep3 as (_ & Hh & Han).
      split; [congruence|]. split; [reflexivity|]. exists a3. rewrite Han, A0. reflexivity.
    - apply ret_ok_inv in Hstep1 as [-> ->]. auto. }
  destruct E2 as [H2 E2].
  apply when_setattr_ok_inv with (a := a2) in Hstep2 as [H3 E3]; [|exact Hm2].
  apply when_setattr_ok_inv with (a := a2) in Hstep3 as [H4 E4]; [|exact Hm2].
  apply when_setattr_ok_inv with (a := a2) in Hstep4 as [H5 E5]; [|exact Hm2].
  pure_step Hstep5. pure_step Hstep6. pure_step Hstep8.
  apply (frame_run same_an_heap) in Hstep7 as [A8 H8];
    [|frame_tac].
  apply (frame_run same_an_heap) in Hstep9 as [A10 H10]; [|apply frame_colorbar_block_ah].
  assert (Ht' := Hstep10). pure_step Hstep10.
  assert (a11 = a0) as ->.
  { assert (Hh : heap s10 = heap s0) by congruence.
    pose proof (truthy_heap (dm_arrow_rotations p) s10 s0 Hh) as T.
    rewrite Ht, Ht' in T. simpl in T. congruence. }
  apply when_setattr_ok_inv with (a := a2) in Hstep11 as [H12 E12]; [|exact Hm2].
  rewrite E12, A10, A8, E5, E4, E3.
  apply map_eq; intros i.
  destruct (decide (a2 = i)) as [<-|Hne]; destruct a0.
  - destruct E2 as [-> [r0 ->]].
    destruct (is_none (dm_pitch_rot p)) eqn:Ep, (is_none (dm_yaw_rot p)) eqn:Ey,
             (is_none (dm_roll_rot p)) eqn:Er; simpl;
    simplify_map_eq; unfold apply_tilts, override; rewrite ?Ep, ?Ey, ?Er;
    destruct an2; reflexivity.
  - rewrite E2.
    destruct (is_none (dm_pitch_rot p)) eqn:Ep, (is_none (dm_yaw_rot p)) eqn:Ey,
             (is_none (dm_roll_rot p)) eqn:Er; simpl;
    simplify_map_eq; unfold apply_tilts, override; rewrite ?Ep, ?Ey, ?Er;
    destruct an2; reflexivity.
  - destruct E2 as [-> [r0 ->]].
    destruct (is_none (dm_pitch_rot p)), (is_none (dm_yaw_rot p)), (is_none (dm_roll_rot p));
    simpl; simplify_map_eq; reflexivity.
  - rewrite E2.
    destruct (is_none (dm_pitch_rot p)), (is_none (dm_yaw_rot p)), (is_none (dm_roll_rot p));
    simpl; simplify_map_eq; reflexivity.
Qed.

Lemma bind_args_ok_inv ps vk pos kw s s' bk :
  bind_args ps vk pos kw s = (s', Ok bk) -> s' = s /\ py_bind ps vk pos kw = Some bk.
Proof.
  unfold bind_args. destruct (py_bind ps vk pos kw); simpl; intros H; inversion H; auto.
Qed.

Lemma dget_app_Some d d' k v : dget d k = Some v -> dget (d ++ d') k = Some v.
Proof.
  induction d as [|[k' v'] d IH]; simpl; [discriminate|].
  destruct (String.eqb k k'); auto.
Qed.

Lemma bind_kw_keeps ps vk bound extra kw b e k v :
  bind_kw ps vk bound extra kw = Some (b, e) -> dget bound k = Some v -> dget b k = Some v.
Proof.
  revert bound extra. induction kw as [|[k' v'] kw IH]; simpl; intros bound extra H Hk.
  - inversion H; subst; exact Hk.
  - destruct (is_param ps k').
    + destruct (dget bound k'); [discriminate|].
      eapply IH; [exact H|]. apply dget_app_Some, Hk.
    + destruct vk; [|discriminate]. eapply IH; eauto.
Qed.

(** the first positional argument is bound to the first parameter *)
Lemma py_bind_head k ps vk v pos kw b e :
  py_bind (k :: ps) vk (v :: pos) kw = Some (b, e) -> dget b k = Some v.
Proof.
  unfold py_bind. destruct (Nat.ltb _ _); [discriminate|].
  intros H. eapply bind_kw_keeps; [exact H|]. simpl. rewrite String.eqb_refl. reflexivity.
Qed.

Lemma plot_3d_vectormap_restores_rotation geometry pos kw s s' v a an rest :
  pos = VAn a :: rest -> analysers s !! a = Some an ->
  plot_3d_vectormap geometry pos kw s = (s', Ok v) ->
  exists an', analysers s' !! a = Some an' /\ vector_rotation an' = vector_rotation an.
Proof.
  intros -> Ha H. unfold plot_3d_vectormap in H. peel H.
  apply ret_ok_inv in H as [-> _].
  apply bind_args_ok_inv in Hstep as [-> Hb]. destruct a0 as [b e]. simpl in *.
  apply py_bind_head in Hb.
  unfold req in Hstep0. rewrite Hb in Hstep0. apply ret_ok_inv in Hstep0 as [-> ->].
  apply an_obj_ok_inv in Hstep1 as [-> [= <-]].
  apply (frame_run same_an) in Hstep2; [|frame_tac; reflexivity].
  pure_step Hstep3. pure_step Hstep4.
  apply (frame_run same_an) in Hstep5; [|frame_tac; reflexivity].
  unfold _set_analyser_attributes, mfor in Hstep6. apply ret_ok_inv in Hstep6 as [-> _].
  apply (frame_run same_an) in Hstep7; [|frame_tac; reflexivity].
  apply (frame_run same_an) in Hstep8; [|frame_tac; reflexivity].
  apply get_an_ok_inv in Hstep9 as [-> Ha10].
  unfold same_an in *. rewrite Hstep8, Hstep7, Hstep5, Hstep2, Ha in Ha10.
  injection Ha10 as <-.
  apply setattr_an_ok_inv in Hstep15 as ([an0 Ha0] & _ & ->).
  eexists; split; [simplify_map_eq; reflexivity|]. reflexivity.
Qed.

Lemma new_obj_ok_inv o s s' v :
  new_obj o s = (s', Ok v) ->
  v = VRef (fresh (dom (heap s))) /\ (fresh (dom (heap s)) ∉ dom (heap s)) /\
  heap s' = <[fresh (dom (heap s)) := o]> (heap s) /\ analysers s' = analysers s.
Proof.
  unfold new_obj, bind, get, heap_put, modify, ret. simpl. intros H. inversion H; subst.
  simpl. repeat split; auto. apply is_fresh.
Qed.

Lemma new_obj_keeps o s s' v r x :
  new_obj o s = (s', Ok v) -> heap s !! r = Some x -> heap s' !! r = Some x.
Proof.
  intros H Hr. apply new_obj_ok_inv in H as (_ & Hf & -> & _).
  rewrite lookup_insert_ne; [exact Hr|]. intros <-. apply Hf, elem_of_dom. eauto.
Qed.

Lemma vectormap_type_oanalyser an r s :
  oanalyser_class an -> heap s !! r = Some (OList [VInt 0]) ->
  exists c, vectormap_type an (VRef r) s = (s, Ok (true, c)).
Proof.
  intros Hc Hr. unfold vectormap_type.
  destruct Hc as [Hc | (Hc & parts & Hp & Hf)]; rewrite Hc.
  - simpl. unfold py_len, getitem, seq_items, heap_obj, bind, get. simpl.
    repeat (rewrite Hr; simpl). eexists; reflexivity.
  - rewrite Hp. cbv beta iota. rewrite Hf. simpl. eexists; reflexivity.
Qed.

Lemma append29_ok_inv r s s' u :
  heap s !! r = Some (OList [VInt 0]) ->
  (let! x0 := getitem (VRef r) 0 in
   if py_eq_int x0 0 then
     let! n := py_len (VRef r) in when (Nat.eqb n 1) (list_append (VRef r) (VInt 29))
   else ret tt) s = (s', Ok u) ->
  heap s' = <[r := OList [VInt 0; VInt 29]]> (heap s).
Proof.
  intros Hr H.
  unfold getitem, py_len, list_append, seq_items, heap_obj, heap_put, modify, bind, get in H.
  simpl in H. repeat (rewrite Hr in H; simpl in H). inversion H. reflexivity.
Qed.


Lemma diff_params_ok_inv b s s' p :
  diff_params b s = (s', Ok p) ->
  s' = s /\ dget b "manalyser2" = Some (dm_manalyser2 p) /\
  dm_pitch_rot p = arg b "pitch_rot" VNone /\ dm_yaw_rot p = arg b "yaw_rot" VNone /\
  dm_roll_rot p = arg b "roll_rot" VNone.
Proof.
  unfold diff_params, req, bind, ret, raise.
  destruct (dget b "manalyser1"), (dget b "manalyser2") eqn:E; intros H; inversion H; subst;
  simpl; auto.
Qed.

(** A normal return of [plot_3d_differencemap]: entity B ends with its old
    [vector_rotation] and the supplied tilts. *)
Lemma plot_3d_differencemap_an geometry point_error pos kw b e s s' v a2 an2 :
  py_bind differencemap_params false pos kw = Some (b, e) ->
  dget b "manalyser2" = Some (VAn a2) ->
  analysers s !! a2 = Some an2 ->
  plot_3d_differencemap geometry point_error pos kw s = (s', Ok v) ->
  analysers s' =
    <[a2 := mkAnalyser (an_class an2) (manalysers an2) (eyes an2) (vector_rotation an2)
              (override (arg b "pitch_rot" VNone) (pitch_rot an2))
              (override (arg b "roll_rot" VNone) (roll_rot an2))
              (override (arg b "yaw_rot" VNone) (yaw_rot an2)) (constant_points an2)]>
      (analysers s).
Proof.
  intros Hb Hm2 Ha2 H. unfold plot_3d_differencemap in H. peel H.
  apply bind_args_ok_inv in Hstep as [-> Hb']. rewrite Hb in Hb'. injection Hb' as <-.
  simpl in Hstep0. apply diff_params_ok_inv in Hstep0 as (-> & Hm2' & Ep & Ey & Er).
  rewrite Hm2 in Hm2'. injection Hm2' as Hm2'.
  rewrite (differencemap_body_an geometry point_error a0 s s' v a2 an2); auto.
  unfold apply_tilts. rewrite Ep, Ey, Er. reflexivity.
Qed.

Lemma dget_drop_kwargs12 b k :
  k <> "kwargs1" -> k <> "kwargs2" -> dget (drop_kwargs12 b) k = dget b k.
Proof.
  intros H1 H2. induction b as [|[k' v] b IH]; [reflexivity|]. simpl.
  destruct (String.eqb k' "kwargs1" || String.eqb k' "kwargs2") eqn:E; simpl; rewrite IH.
  - destruct (String.eqb k k') eqn:F; [|reflexivity].
    apply String.eqb_eq in F; subst.
    apply orb_true_iff in E as [E|E]; apply String.eqb_eq in E; contradiction.
  - reflexivity.
Qed.

(** ** Runs related by a map on the result *)

Lemma bind_post {A A' B B'} (m : M A) (m' : M A') (k : A -> M B) (k' : A' -> M B')
    (g : A -> A') (h : B -> B') s :
  m' s = post_map g (m s) ->
  (forall x t, k' (g x) t = post_map h (k x t)) ->
  bind m' k' s = post_map h (bind m k s).
Proof. unfold bind. intros E K. rewrite E. destruct (m s) as [t [x|e]]; simpl; auto. Qed.

Lemma bind_post_same {A B B'} (m : M A) (k : A -> M B) (k' : A -> M B') (h : B -> B') s :
  (forall x t, k' x t = post_map h (k x t)) ->
  bind m k' s = post_map h (bind m k s).
Proof. unfold bind. intros K. destruct (m s) as [t [x|e]]; simpl; auto. Qed.

Lemma mfold_post {A B B'} (l : list A) (f : B -> A -> M B) (f' : B' -> A -> M B')
    (g : B -> B') acc t :
  (forall acc x t, f' (g acc) x t = post_map g (f acc x t)) ->
  mfold l (g acc) f' t = post_map g (mfold l acc f t).
Proof.
  intros F. revert acc t. induction l as [|x l IH]; intros acc t; [reflexivity|].
  simpl. apply (bind_post _ _ _ _ g g); auto.
Qed.

Lemma concat_map_map {A B} (f : A -> B) (l : list (list A)) :
  concat (map (map f) l) = map f (concat l).
Proof. induction l as [|x l IH]; simpl; [reflexivity|]. rewrite IH, map_app. reflexivity. Qed.

Lemma np_concatenate_post l t :
  np_concatenate (map (map one_minus) l) t = post_map (map one_minus) (np_concatenate l t).
Proof.
  destruct l as [|x l]; [reflexivity|].
  pose proof (concat_map_map one_minus (x :: l)) as E.
  unfold np_concatenate, post_map, ret. simpl in *. rewrite E. reflexivity.
Qed.

Lemma differencemap_eye_reverse geometry point_error m1 m2 x c eye t :
  differencemap_eye geometry point_error m1 m2 x c (VBool true) eye t =
  post_map (map one_minus) (differencemap_eye geometry point_error m1 m2 x c (VBool false) eye t).
Proof.
  unfold differencemap_eye.
  do 3 (apply bind_post_same; intros ? ?).
  simpl truthy. unfold bind at 1 3, ret at 1 3.
  apply bind_post_same; intros ? ?. reflexivity.
Qed.

(** ** Colorbar attachment *)

#[export] Instance cb_frame_refl x : Reflexive (cb_frame x).
Proof. intros s. split; [reflexivity | intros axr H; exact H]. Qed.
#[export] Instance cb_frame_trans x : Transitive (cb_frame x).
Proof.
  intros s1 s2 s3 [E1 K1] [E2 K2]. split; [etransitivity; eauto | intros axr H; auto].
Qed.

Lemma count_colorbars_app x l1 l2 :
  count_colorbars x (l1 ++ l2) = count_colorbars x l1 + count_colorbars x l2.
Proof.
  induction l1 as [|e l1 IH]; [reflexivity|]. destruct e; simpl; rewrite ?IH; lia.
Qed.

Lemma count_colorbars_none x l : Forall not_colorbar l -> count_colorbars x l = 0.
Proof. induction 1 as [|e l He _ IH]; [reflexivity|]. destruct e; simpl in *; tauto. Qed.

(** a state update that appends one event other than a colorbar *)
Ltac cb_solve :=
  match goal with
  | |- cb_frame _ ?s _ =>
      split;
      [ first [ exists []; simpl; rewrite app_nil_r; split; [reflexivity | constructor]
              | eexists [_]; simpl; split; [reflexivity | repeat constructor] ]
      | intros ? ?; simpl; assumption ]
  end.

Lemma frame_new_axis_cb x : frame (cb_frame x) new_axis.
Proof.
  intros s. split.
  - exists []. cbn. rewrite app_nil_r. split; [reflexivity | constructor].
  - intros axr H. cbn. rewrite lookup_insert_ne; [exact H|].
    intros E. pose proof (is_fresh (dom (axes_store s))) as F. rewrite E in F.
    apply F. apply elem_of_dom. eauto.
Qed.

#[export] Hint Resolve frame_new_axis_cb : frame.

Lemma frame_setattr_an_cb x a n v : frame (cb_frame x) (setattr_an a n v).
Proof. frame_tac; cb_solve. Qed.

Lemma frame_differencemap_eye_cb geometry point_error m1 m2 x y c r eye :
  frame (cb_frame x) (differencemap_eye geometry point_error m1 m2 y c r eye).
Proof. unfold differencemap_eye, get_3d_vectors, field_error. frame_tac; cb_solve. Qed.

#[export] Hint Resolve frame_setattr_an_cb frame_differencemap_eye_cb : frame.

(** [colorbar_block] with [colorbar=True] leaves the target marked and
    attaches one colorbar exactly when the target was not marked. *)
Lemma colorbar_block_cb x p s s' u axr :
  dm_colorbar p = VBool true -> axes_store s !! x = Some axr ->
  colorbar_block x p s = (s', Ok u) ->
  cb_marked x s' /\
  count_colorbars x (trace s') =
    count_colorbars x (trace s) + (if differencemap_colorbar axr then 0 else 1).
Proof.
  intros Hc Hx H. unfold colorbar_block in H. rewrite Hc in H. peel H.
  apply ret_ok_inv in Hstep as [-> ->]. peel Hstep0.
  unfold get_ax, bind, get in Hstep. simpl in Hstep. rewrite Hx in Hstep.
  simpl in Hstep. unfold ret in Hstep. injection Hstep as <- <-.
  unfold ret in Hstep0. injection Hstep0 as <- <-. simpl in H.
  destruct (differencemap_colorbar axr) as [c|] eqn:Ec; simpl in H.
  - unfold ret in H. injection H as <- _. split; [exists axr; rewrite Ec; split; congruence|].
    simpl. lia.
  - peel H.
    apply (frame_run (cb_frame x)) in Hstep as [[l1 [T1 F1]] K1]; [|frame_tac; cb_solve].
    unfold emit, modify in Hstep0. injection Hstep0 as <- _.
    unfold update_ax in Hstep1. peel Hstep1.
    unfold get_ax, bind, get in Hstep. simpl in Hstep. rewrite (K1 axr Hx) in Hstep.
    simpl in Hstep. unfold ret in Hstep. injection Hstep as <- <-.
    unfold put_ax, modify in Hstep1. injection Hstep1 as <- _.
    pure_step Hstep2.
    apply (frame_run (cb_frame x)) in H as [[l2 [T2 F2]] K2];
      [|frame_tac; cb_solve].
    split.
    + eexists. split; [apply K2; cbn [axes_store]; simplify_map_eq; reflexivity|]. simpl. discriminate.
    + rewrite T2. simpl. rewrite T1, !count_colorbars_app, (count_colorbars_none x l1 F1),
        (count_colorbars_none x l2 F2). simpl. rewrite Nat.eqb_refl. lia.
Qed.


Lemma differencemap_body_cb geometry point_error p s s' v x axr :
  dm_ax p = VAx x -> dm_colorbar p = VBool true -> axes_store s !! x = Some axr ->
  plot_3d_differencemap_body geometry point_error p s = (s', Ok v) ->
  cb_marked x s' /\
  count_colorbars x (trace s') =
    count_colorbars x (trace s) + (if differencemap_colorbar axr then 0 else 1).
Proof.
  intros Hax Hc Hx H. unfold plot_3d_differencemap_body in H. rewrite Hax in H. peel H.
  apply ret_ok_inv in H as [-> _].
  unfold ax_obj, ret in Hstep; simpl in Hstep. injection Hstep as <- <-.
  assert (P : cb_frame x s s9).
  { apply (frame_run (cb_frame x)) in Hstep0; [|frame_tac].
    apply (frame_run (cb_frame x)) in Hstep1; [|frame_tac; cb_solve].
    apply (frame_run (cb_frame x)) in Hstep2; [|frame_tac; cb_solve].
    apply (frame_run (cb_frame x)) in Hstep3; [|frame_tac; cb_solve].
    apply (frame_run (cb_frame x)) in Hstep4; [|frame_tac; cb_solve].
    apply (frame_run (cb_frame x)) in Hstep5; [|frame_tac].
    apply (frame_run (cb_frame x)) in Hstep6; [|frame_tac].
    apply (frame_run (cb_frame x)) in Hstep7; [|frame_tac].
    apply (frame_run (cb_frame x)) in Hstep8; [|frame_tac].
    do 8 (etransitivity; [eassumption|]); assumption. }
  assert (Q : cb_frame x s10 s12).
  { apply (frame_run (cb_frame x)) in Hstep10; [|frame_tac].
    apply (frame_run (cb_frame x)) in Hstep11; [|frame_tac; cb_solve].
    etransitivity; eassumption. }
  destruct P as [[l1 [T1 F1]] K1]. destruct Q as [[l2 [T2 F2]] K2].
  apply (colorbar_block_cb x p s9 s10 a9 axr Hc (K1 axr Hx)) in Hstep9 as [[axr' [Ha' Hm']] Hn].
  split.
  - exists axr'. split; [apply K2; exact Ha' | exact Hm'].
  - rewrite T2, count_colorbars_app, (count_colorbars_none x l2 F2), Hn, T1,
      count_colorbars_app, (count_colorbars_none x l1 F1). lia.
Qed.

Lemma colorbar_block_marked x p t :
  dm_colorbar p = VBool true -> cb_marked x t -> colorbar_block x p t = (t, Ok tt).
Proof.
  intros Hc [axr [Hx Hm]]. unfold colorbar_block, get_ax. rewrite Hc.
  unfold truthy, bind, get, ret. cbv beta iota zeta. rewrite Hx. cbv beta iota zeta.
  destruct (differencemap_colorbar axr); [reflexivity | congruence].
Qed.

Lemma diff_params_fields b s s' p :
  diff_params b s = (s', Ok p) ->
  s' = s /\ dm_ax p = arg b "ax" VNone /\ dm_colorbar p = arg b "colorbar" (VBool true).
Proof.
  unfold diff_params, req, bind, ret, raise.
  destruct (dget b "manalyser1"), (dget b "manalyser2"); intros H; inversion H; subst;
  simpl; auto.
Qed.

Lemma plot_3d_differencemap_cb geometry point_error pos kw b e s s' v x axr :
  py_bind differencemap_params false pos kw = Some (b, e) ->
  arg b "ax" VNone = VAx x -> arg b "colorbar" (VBool true) = VBool true ->
  axes_store s !! x = Some axr ->
  plot_3d_differencemap geometry point_error pos kw s = (s', Ok v) ->
  cb_marked x s' /\
  count_colorbars x (trace s') =
    count_colorbars x (trace s) + (if differencemap_colorbar axr then 0 else 1).
Proof.
  intros Hb Hax Hc Hx H. unfold plot_3d_differencemap in H. peel H.
  apply bind_args_ok_inv in Hstep as [-> Hb']. rewrite Hb in Hb'. injection Hb' as <-.
  simpl in Hstep0. apply diff_params_fields in Hstep0 as (-> & Ha & Hc').
  eapply differencemap_body_cb; eauto; congruence.
Qed.

(** ** The eyes of [plot_3d_differencemap] *)

Lemma surfaces_app l1 l2 : surfaces (l1 ++ l2) = (surfaces l1 ++ surfaces l2)%list.
Proof. induction l1 as [|e l1 IH]; [reflexivity|]. destruct e; simpl; rewrite ?IH; reflexivity. Qed.

Lemma surfaces_none l : Forall not_surface l -> surfaces l = [].
Proof. induction 1 as [|e l He _ IH]; [reflexivity|]. destruct e; simpl in *; tauto. Qed.

Lemma zip4_with_length f pA vA pB vB :
  length pA = length vA -> length pA = length pB -> length pA = length vB ->
  length (zip4_with f pA vA pB vB) = length pA.
Proof.
  revert vA pB vB. induction pA as [|a pA IH]; intros [|b vA] [|c pB] [|d vB]; simpl;
  intros; try lia. f_equal. apply IH; lia.
Qed.

Lemma get_3d_vectors_ok geometry m eye rs vh t t' vf :
  get_3d_vectors geometry m eye rs vh t = (t', Ok vf) ->
  exists a an, m = VAn a /\ analysers t !! a = Some an /\ geometry an eye rs vh = Some vf /\
    t' = mkState (heap t) (analysers t) (axes_store t) (trace t ++ [EGet a an eye]).
Proof.
  unfold get_3d_vectors. intros H. peel H.
  apply an_obj_ok_inv in Hstep as [-> ->]. apply get_an_ok_inv in Hstep0 as [-> Ha].
  unfold emit, modify in Hstep1. injection Hstep1 as <- _.
  destruct (geometry _ eye rs vh) eqn:G; [|discriminate].
  apply ret_ok_inv in H as [-> ->]. eauto 7.
Qed.

Lemma field_error_ok point_error pA vA pB vB c t t' errs :
  field_error point_error pA vA pB vB c t = (t', Ok errs) ->
  length errs = length pA /\ surfaces (trace t') = surfaces (trace t).
Proof.
  unfold field_error. intros H. peel H.
  unfold emit, modify in Hstep. injection Hstep as <- _.
  pure_step Hstep0.
  destruct (Nat.eqb (length pA) (length vA)) eqn:E1; [|discriminate].
  destruct (Nat.eqb (length pA) (length pB)) eqn:E2; [|discriminate].
  destruct (Nat.eqb (length pA) (length vB)) eqn:E3; [|discriminate].
  apply ret_ok_inv in H as [-> ->]. apply Nat.eqb_eq in E1, E2, E3.
  split; [apply zip4_with_length; auto|]. simpl. rewrite surfaces_app. simpl.
  rewrite app_nil_r. reflexivity.
Qed.

Lemma mfor_surfaces x eye l t t' u :
  mfor l (fun phi => emit (ESurface x eye phi)) t = (t', Ok u) ->
  surfaces (trace t') = (surfaces (trace t) ++ map (fun phi => (x, eye, phi)) l)%list.
Proof.
  revert t. induction l as [|phi l IH]; intros t H; simpl in H.
  - apply ret_ok_inv in H as [-> _]. rewrite app_nil_r. reflexivity.
  - peel H. unfold emit, modify in Hstep. injection Hstep as <- _.
    rewrite (IH _ H). simpl. rewrite surfaces_app, <- app_assoc. reflexivity.
Qed.

(** one eye: as many errors as points of the first field, and the surface
    plots of the eye's azimuth ranges *)
Lemma differencemap_eye_ok geometry point_error m1 m2 x c r eye t t' errs :
  differencemap_eye geometry point_error m1 m2 x c r eye t = (t', Ok errs) ->
  (exists an vf, geometry an eye (VBool false) (VBool true) = Some vf /\
     length errs = length (fst vf)) /\
  surfaces (trace t') = (surfaces (trace t) ++ map (fun phi => (x, eye, phi)) (phi_ranges eye))%list.
Proof.
  unfold differencemap_eye. intros H. peel H.
  apply get_3d_vectors_ok in Hstep as (b1 & bn1 & _ & _ & G1 & ->).
  apply get_3d_vectors_ok in Hstep0 as (b2 & bn2 & _ & _ & _ & ->).
  apply field_error_ok in Hstep1 as [L S].
  pure_step Hstep2. apply ret_ok_inv in H as [-> ->].
  split.
  - exists bn1, a. split; [exact G1|]. destruct a2; rewrite ?length_map; exact L.
  - rewrite (mfor_surfaces _ _ _ _ _ _ Hstep3), S. simpl. rewrite !surfaces_app. simpl.
    rewrite !app_nil_r. reflexivity.
Qed.

#[export] Instance surf_frame_refl : Reflexive surf_frame.
Proof. intros s. split; [reflexivity | intros a an H; eauto]. Qed.
#[export] Instance surf_frame_trans : Transitive surf_frame.
Proof.
  intros s1 s2 s3 [E1 K1] [E2 K2]. split; [etransitivity; eauto|].
  intros a an H. destruct (K1 a an H) as (an1 & H1 & Q1). destruct (K2 a an1 H1) as (an2 & H2 & Q2).
  exists an2. split; [exact H2 | congruence].
Qed.

Lemma frame_setattr_an_surf a n v : frame surf_frame (setattr_an a n v).
Proof.
  intros s. unfold setattr_an, get_an, bind, get. cbv beta iota.
  destruct (analysers s !! a) as [an|] eqn:E; [|reflexivity]. unfold ret. cbv beta iota.
  repeat match goal with |- context [if ?b then _ else _] => destruct b end;
  try reflexivity; unfold put_an, modify; cbn [fst]; split;
  try (exists []; cbn [trace]; rewrite app_nil_r; split; [reflexivity | constructor]);
  intros b bn H; cbn [analysers];
  (destruct (decide (a = b)) as [<-|Hne];
   [ rewrite E in H; injection H as <-; eexists; split; [apply lookup_insert_eq|]; reflexivity
   | rewrite lookup_insert_ne; [eauto | exact Hne]]).
Qed.

#[export] Hint Resolve frame_setattr_an_surf : frame.

(** a state update that appends at most one event other than a surface plot *)
Ltac surf_solve :=
  match goal with
  | |- surf_frame _ _ =>
      split;
      [ first [ exists []; simpl; rewrite app_nil_r; split; [reflexivity | constructor]
              | eexists [_]; simpl; split; [reflexivity | repeat constructor] ]
      | intros ? ? ?; simpl; eauto ]
  end.

Lemma frame_new_axis_surf : frame surf_frame new_axis.
Proof. frame_tac; surf_solve. Qed.

#[export] Hint Resolve frame_new_axis_surf : frame.

Lemma mfold_two_eyes (f : string -> M (list float)) t t' all :
  mfold ["left"; "right"] [] (fun all eye => let! errors := f eye in ret (all ++ [errors])%list) t
    = (t', Ok all) ->
  exists t1 eL eR, f "left" t = (t1, Ok eL) /\ f "right" t1 = (t', Ok eR) /\ all = [eL; eR].
Proof.
  cbn [mfold]. intros H.
  apply bind_ok_inv in H as (t1 & acc1 & H1 & H).
  apply bind_ok_inv in H1 as (t1' & eL & HL & R1). apply ret_ok_inv in R1 as [-> ->].
  apply bind_ok_inv in H as (t2 & acc2 & H2 & H).
  apply bind_ok_inv in H2 as (t2' & eR & HR & R2). apply ret_ok_inv in R2 as [-> ->].
  apply ret_ok_inv in H as [-> ->]. exists t1', eL, eR. auto.
Qed.

Lemma differencemap_body_eyes geometry point_error p s s' v a1 an1 :
  dm_manalyser1 p = VAn a1 -> analysers s !! a1 = Some an1 -> eyes an1 = ["left"; "right"] ->
  plot_3d_differencemap_body geometry point_error p s = (s', Ok v) ->
  exists x t1 t2 t3 eL eR,
    fst v = VAx x /\
    differencemap_eye geometry point_error (dm_manalyser1 p) (dm_manalyser2 p) x
      (dm_colinear p) (dm_reverse_errors p) "left" t1 = (t2, Ok eL) /\
    differencemap_eye geometry point_error (dm_manalyser1 p) (dm_manalyser2 p) x
      (dm_colinear p) (dm_reverse_errors p) "right" t2 = (t3, Ok eR) /\
    snd v = (eL ++ eR)%list /\
    surf_frame s t1 /\ surf_frame t3 s'.
Proof.
  intros Hm1 Ha1 He H. unfold plot_3d_differencemap_body in H. peel H.
  apply ret_ok_inv in H as [-> ->].
  apply (frame_run surf_frame) in Hstep; [|frame_tac].
  assert (P : surf_frame s0 s7).
  { apply (frame_run surf_frame) in Hstep0; [|frame_tac].
    apply (frame_run surf_frame) in Hstep1; [|frame_tac].
    apply (frame_run surf_frame) in Hstep2; [|frame_tac].
    apply (frame_run surf_frame) in Hstep3; [|frame_tac].
    apply (frame_run surf_frame) in Hstep4; [|frame_tac].
    apply (frame_run surf_frame) in Hstep5; [|frame_tac].
    apply (frame_run surf_frame) in Hstep6; [|frame_tac].
    do 6 (etransitivity; [eassumption|]); assumption. }
  assert (P' : surf_frame s s7) by (etransitivity; eassumption).
  apply an_obj_ok_inv in Hstep5 as [-> Ea]. rewrite Hm1 in Ea. injection Ea as <-.
  apply get_an_ok_inv in Hstep6 as [-> Ha6].
  destruct P' as [_ K]. destruct (K a1 an1 Ha1) as (an' & Ha' & Eyes).
  rewrite Ha6 in Ha'. injection Ha' as <-. rewrite Eyes, He in Hstep7.
  apply mfold_two_eyes in Hstep7 as (t1 & eL & eR & HL & HR & ->).
  unfold np_concatenate in Hstep8. apply ret_ok_inv in Hstep8 as [-> ->].
  assert (Q : surf_frame s8 s12).
  { apply (frame_run surf_frame) in Hstep9; [|frame_tac; surf_solve].
    apply (frame_run surf_frame) in Hstep10; [|frame_tac].
    apply (frame_run surf_frame) in Hstep11; [|frame_tac].
    do 2 (etransitivity; [eassumption|]); assumption. }
  exists a, s5, t1, s8, eL, eR. simpl. rewrite app_nil_r.
  split; [reflexivity|]. split; [exact HL|]. split; [exact HR|]. split; [reflexivity|].
  split; [etransitivity; eassumption | exact Q].
Qed.

(** ** Calls of the Multi-View Orchestrator *)

Lemma merge_kw_ok acc l out : merge_kw acc l = Some out -> out = (acc ++ l)%list.
Proof.
  revert acc. induction l as [|[k v] l IH]; simpl; intros acc H.
  - inversion H. rewrite app_nil_r. reflexivity.
  - destruct (dget acc k); [discriminate|]. apply IH in H. rewrite H, <- app_assoc. reflexivity.
Qed.

Lemma call_kwargs_ok_inv ex sp s s' kw :
  call_kwargs ex sp s = (s', Ok kw) -> s' = s /\ kw = (ex ++ concat sp)%list.
Proof.
  unfold call_kwargs. destruct (merge_kw [] _) as [out|] eqn:E; intros H; [|discriminate].
  apply ret_ok_inv in H as [-> ->]. apply merge_kw_ok in E. auto.
Qed.

Lemma dget_dset_eq d k v : dget (dset d k v) k = Some v.
Proof.
  induction d as [|[k' v'] d IH]; simpl.
  - rewrite String.eqb_refl. reflexivity.
  - destruct (String.eqb k k') eqn:E; simpl; rewrite E; [reflexivity | exact IH].
Qed.

Lemma dget_dset_ne d k k' v : String.eqb k' k = false -> dget (dset d k v) k' = dget d k'.
Proof.
  intros Hne. induction d as [|[k0 v0] d IH]; simpl.
  - rewrite Hne. reflexivity.
  - destruct (String.eqb k k0) eqn:E; simpl.
    + apply String.eqb_eq in E as ->. rewrite Hne. reflexivity.
    + destruct (String.eqb k' k0); [reflexivity | exact IH].
Qed.

Lemma dget_app_None d d' k : dget d k = None -> dget (d ++ d') k = dget d' k.
Proof.
  induction d as [|[k' v'] d IH]; simpl; [reflexivity|].
  destruct (String.eqb k k'); [discriminate | exact IH].
Qed.

(** a parameter given by keyword is bound to the keyword's value *)
Lemma bind_kw_param ps vk bound extra kw b e k v :
  bind_kw ps vk bound extra kw = Some (b, e) -> is_param ps k = true ->
  dget kw k = Some v -> dget b k = Some v.
Proof.
  revert bound extra. induction kw as [|[k' v'] kw IH]; simpl; intros bound extra H Hp Hk;
    [discriminate|].
  destruct (String.eqb k k') eqn:Ek.
  - apply String.eqb_eq in Ek as ->. injection Hk as ->. rewrite Hp in H.
    destruct (dget bound k') eqn:Eb; [discriminate|].
    eapply bind_kw_keeps; [exact H|]. rewrite dget_app_None by exact Eb.
    simpl. rewrite String.eqb_refl. reflexivity.
  - destruct (is_param ps k').
    + destruct (dget bound k'); [discriminate|]. eapply IH; eauto.
    + destruct vk; [|discriminate]. eapply IH; eauto.
Qed.

Lemma bind_kw_extra_keeps ps bound extra kw b e k v :
  bind_kw ps true bound extra kw = Some (b, e) -> dget extra k = Some v -> dget e k = Some v.
Proof.
  revert bound extra. induction kw as [|[k' v'] kw IH]; simpl; intros bound extra H Hk.
  - inversion H; subst; exact Hk.
  - destruct (is_param ps k').
    + destruct (dget bound k'); [discriminate|]. eapply IH; eauto.
    + eapply IH; [exact H|]. apply dget_app_Some, Hk.
Qed.

(** a keyword that is not a parameter goes to [**kwargs] *)
Lemma bind_kw_extra ps bound extra kw b e k v :
  bind_kw ps true bound extra kw = Some (b, e) -> is_param ps k = false ->
  dget extra k = None -> dget kw k = Some v -> dget e k = Some v.
Proof.
  revert bound extra. induction kw as [|[k' v'] kw IH]; simpl; intros bound extra H Hp He Hk;
    [discriminate|].
  destruct (String.eqb k k') eqn:Ek.
  - apply String.eqb_eq in Ek as ->. injection Hk as ->. rewrite Hp in H.
    eapply bind_kw_extra_keeps; [exact H|]. rewrite dget_app_None by exact He.
    simpl. rewrite String.eqb_refl. reflexivity.
  - destruct (is_param ps k').
    + destruct (dget bound k'); [discriminate|]. eapply IH; eauto.
    + eapply IH; eauto. rewrite dget_app_None by exact He. simpl. rewrite Ek. reflexivity.
Qed.

Lemma py_bind_param ps vk pos kw b e k v :
  py_bind ps vk pos kw = Some (b, e) -> is_param ps k = true ->
  dget kw k = Some v -> dget b k = Some v.
Proof.
  unfold py_bind. destruct (Nat.ltb _ _); [discriminate|]. apply bind_kw_param.
Qed.

Lemma py_bind_extra ps pos kw b e k v :
  py_bind ps true pos kw = Some (b, e) -> is_param ps k = false ->
  dget kw k = Some v -> dget e k = Some v.
Proof.
  unfold py_bind. destruct (Nat.ltb _ _); [discriminate|]. intros H Hp.
  eapply bind_kw_extra; [exact H | exact Hp | reflexivity].
Qed.

Lemma compare_calls_app l1 l2 :
  compare_calls (l1 ++ l2) = (compare_calls l1 ++ compare_calls l2)%list.
Proof. induction l1 as [|[] l1 IH]; simpl; f_equal; auto. Qed.

Lemma accumulations_app l1 l2 : accumulations (l1 ++ l2) = accumulations l1 + accumulations l2.
Proof. induction l1 as [|[] l1 IH]; simpl; auto. Qed.

Lemma colorbars_app l1 l2 : colorbars (l1 ++ l2) = colorbars l1 + colorbars l2.
Proof. induction l1 as [|[] l1 IH]; simpl; auto. Qed.

Lemma quiet_counts l :
  Forall quiet l -> compare_calls l = [] /\ accumulations l = 0 /\ colorbars l = 0.
Proof. induction 1 as [|[] l Hx _ IH]; simpl in *; tauto. Qed.

Lemma not_cmp_acc_counts l :
  Forall not_cmp_acc l -> compare_calls l = [] /\ accumulations l = 0.
Proof. induction 1 as [|[] l Hx _ IH]; simpl in *; tauto. Qed.

Lemma quiet_not_cmp_acc l : Forall quiet l -> Forall not_cmp_acc l.
Proof. intros H. eapply Forall_impl; [exact H|]. intros []; simpl; tauto. Qed.

(** Closes [events_only] goals left by [frame_tac] on state updates. *)
Ltac ev_solve :=
  match goal with
  | |- events_only _ _ _ =>
      first [ exists []; simpl; rewrite app_nil_r; split; [reflexivity | constructor]
            | eexists [_]; simpl; split; [reflexivity | repeat constructor] ]
  end.

Lemma frame_deepcopy_quiet fuel :
  forall memo v, frame (events_only quiet) (deepcopy fuel memo v).
Proof. induction fuel; intros memo v; simpl; frame_tac; ev_solve. Qed.

#[export] Hint Resolve frame_deepcopy_quiet : frame.

Lemma frame_new_axes_quiet n : frame (events_only quiet) (new_axes n).
Proof. induction n; simpl; frame_tac; ev_solve. Qed.

#[export] Hint Resolve frame_new_axes_quiet : frame.

Lemma frame_vectormap_quiet geometry pos kw :
  frame (events_only quiet) (plot_3d_vectormap geometry pos kw).
Proof. frame_tac; ev_solve. Qed.

Lemma frame_illustration_quiet p axes iax : frame (events_only quiet) (illustration p axes iax).
Proof. frame_tac; ev_solve. Qed.

Lemma frame_differencemap_eye_quiet geometry point_error m1 m2 x c r eye :
  frame (events_only quiet) (differencemap_eye geometry point_error m1 m2 x c r eye).
Proof. unfold differencemap_eye, get_3d_vectors, field_error. frame_tac; ev_solve. Qed.

#[export] Hint Resolve frame_deepcopy_quiet frame_new_axes_quiet frame_vectormap_quiet
  frame_illustration_quiet frame_differencemap_eye_quiet : frame.

Lemma events_quiet_counts s s' :
  events_only quiet s s' ->
  compare_calls (trace s') = compare_calls (trace s) /\
  accumulations (trace s') = accumulations (trace s) /\ colorbars (trace s') = colorbars (trace s).
Proof.
  intros (l & -> & F). apply quiet_counts in F as (F1 & F2 & F3).
  rewrite compare_calls_app, accumulations_app, colorbars_app, F1, F2, F3, app_nil_r.
  split; [reflexivity | split; lia].
Qed.

Lemma quiet_step {A} (m : M A) s s' r :
  frame (events_only quiet) m -> m s = (s', r) ->
  compare_calls (trace s') = compare_calls (trace s) /\
  accumulations (trace s') = accumulations (trace s) /\ colorbars (trace s') = colorbars (trace s).
Proof. intros H E. apply events_quiet_counts. exact (frame_run _ m s s' r H E). Qed.

(** A step that records no invocation, accumulation or colorbar. *)
Ltac qstep H :=
  let Hc := fresh "Hc" in let Ha := fresh "Ha" in let Hb := fresh "Hb" in
  apply quiet_step in H; [destruct H as (Hc & Ha & Hb) | frame_tac; ev_solve].

Ltac qsteps :=
  repeat match goal with H : _ _ = (_, _) |- _ => qstep H end.

Lemma truthy_bool_ok b s s' c : truthy (VBool b) s = (s', Ok c) -> s' = s /\ c = b.
Proof. simpl. intros H. inversion H. auto. Qed.

Lemma colorbar_block_counts x p s s' u :
  colorbar_block x p s = (s', Ok u) ->
  compare_calls (trace s') = compare_calls (trace s) /\
  accumulations (trace s') = accumulations (trace s) /\
  colorbars (trace s') <= colorbars (trace s) + 1 /\
  (dm_colorbar p = VBool false -> colorbars (trace s') = colorbars (trace s)).
Proof.
  intros H. unfold colorbar_block in H. peel H. pose proof Hstep as Hcb.
  destruct (a && negb a0) eqn:Ecb.
  - peel H. qstep Hstep. qstep Hstep0. qstep Hstep1.
    unfold emit, modify in Hstep2. inversion Hstep2; subst. clear Hstep2.
    qstep Hstep3. qstep Hstep4. qstep H. simpl in *.
    rewrite compare_calls_app, accumulations_app, colorbars_app in *. simpl in *.
    rewrite app_nil_r in *. split; [congruence | split; [lia | split; [lia|]]].
    intros Hf. rewrite Hf in Hcb. apply truthy_bool_ok in Hcb as [_ ->]. discriminate.
  - apply ret_ok_inv in H as [-> _]. qstep Hstep. qstep Hstep0.
    split; [congruence | split; [lia | split; [lia | intros; lia]]].
Qed.

Lemma differencemap_body_counts geometry point_error p s s' v :
  plot_3d_differencemap_body geometry point_error p s = (s', Ok v) ->
  compare_calls (trace s') = compare_calls (trace s) /\
  accumulations (trace s') = accumulations (trace s) /\
  colorbars (trace s') <= colorbars (trace s) + 1 /\
  (dm_colorbar p = VBool false -> colorbars (trace s') = colorbars (trace s)).
Proof.
  intros H. unfold plot_3d_differencemap_body in H. peel H.
  match goal with Hc : colorbar_block _ _ _ = _ |- _ =>
    apply colorbar_block_counts in Hc as (Kc & Ka & Kb & Kf) end.
  qsteps.
  split; [congruence | split; [lia | split; [lia | intros Hf; specialize (Kf Hf); lia]]].
Qed.

Lemma differencemap_counts geometry point_error pos kw s s' v :
  plot_3d_differencemap geometry point_error pos kw s = (s', Ok v) ->
  compare_calls (trace s') = compare_calls (trace s) /\
  accumulations (trace s') = accumulations (trace s) /\
  colorbars (trace s') <= colorbars (trace s) + 1 /\
  (dget kw "colorbar" = Some (VBool false) -> colorbars (trace s') = colorbars (trace s)).
Proof.
  intros H. unfold plot_3d_differencemap in H. peel H.
  apply bind_args_ok_inv in Hstep as [-> Hb]. destruct a as [b e].
  apply diff_params_fields in Hstep0 as (-> & _ & Hcb).
  apply differencemap_body_counts in H as (Kc & Ka & Kb & Kf).
  split; [exact Kc | split; [exact Ka | split; [exact Kb|]]].
  intros Hk. apply Kf. rewrite Hcb. unfold arg. simpl.
  erewrite (py_bind_param _ _ _ _ _ _ "colorbar" _ Hb); [reflexivity | reflexivity | exact Hk].
Qed.

#[export] Instance dict_keeps_refl r k : Reflexive (dict_keeps r k).
Proof. intros s d Hd. exists d. auto. Qed.
#[export] Instance dict_keeps_trans r k : Transitive (dict_keeps r k).
Proof.
  intros s1 s2 s3 H1 H2 d Hd. destruct (H1 d Hd) as (d2 & E2 & K2).
  destruct (H2 d2 E2) as (d3 & E3 & K3). exists d3. split; [exact E3 | congruence].
Qed.

(** Closes [dict_keeps] goals left by [frame_tac] on updates outside the heap. *)
Ltac dk_solve :=
  match goal with
  | |- dict_keeps _ _ _ _ => intros ? ?; simpl; eexists; split; [eassumption | reflexivity]
  end.

Lemma frame_new_obj_dk r k o : frame (dict_keeps r k) (new_obj o).
Proof.
  intros s d Hd. exists d. split; [|reflexivity]. cbn.
  rewrite lookup_insert_ne; [exact Hd|]. intros E.
  pose proof (is_fresh (dom (heap s))) as F. rewrite E in F. apply F, elem_of_dom. eauto.
Qed.

Lemma frame_list_append_dk r k v x : frame (dict_keeps r k) (list_append v x).
Proof.
  intros s d Hd. destruct v as [| | | | | r' | |]; try (exists d; auto; fail).
  all: try (simpl; exists d; auto; fail).
  unfold list_append, heap_obj, bind, get, ret, raise, heap_put, modify.
  destruct (heap s !! r') as [[l|d']|] eqn:E; cbn; try (exists d; auto; fail).
  destruct (decide (r' = r)) as [->|Hne]; [congruence|].
  exists d. rewrite lookup_insert_ne by congruence. auto.
Qed.

Lemma frame_dict_setitem_dk r k v k' x :
  String.eqb k k' = false -> frame (dict_keeps r k) (dict_setitem v k' x).
Proof.
  intros Hk s d Hd. destruct v as [| | | | | r' | |]; try (simpl; exists d; auto; fail).
  unfold dict_setitem, dict_items, heap_obj, bind, get, ret, raise, heap_put, modify.
  destruct (heap s !! r') as [[l|d']|] eqn:E; cbn; try (exists d; auto; fail).
  destruct (decide (r' = r)) as [->|Hne].
  - rewrite Hd in E. injection E as E. subst d'. exists (dset d k' x).
    rewrite lookup_insert_eq. split; [reflexivity|]. apply dget_dset_ne, Hk.
  - exists d. rewrite lookup_insert_ne by congruence. auto.
Qed.

#[export] Hint Resolve frame_new_obj_dk frame_list_append_dk : frame.
#[export] Hint Extern 1 (frame (dict_keeps _ _) (dict_setitem _ _ _)) =>
  apply frame_dict_setitem_dk; reflexivity : frame.

Lemma frame_deepcopy_dk r k fuel :
  forall memo v, frame (dict_keeps r k) (deepcopy fuel memo v).
Proof. induction fuel; intros memo v; simpl; frame_tac; dk_solve. Qed.

Lemma frame_new_axes_dk r k n : frame (dict_keeps r k) (new_axes n).
Proof. induction n; simpl; frame_tac; dk_solve. Qed.

Lemma frame_vectormap_dk r k geometry pos kw :
  frame (dict_keeps r k) (plot_3d_vectormap geometry pos kw).
Proof. frame_tac; dk_solve. Qed.

Lemma frame_differencemap_dk r k geometry point_error pos kw :
  frame (dict_keeps r k) (plot_3d_differencemap geometry point_error pos kw).
Proof. unfold plot_3d_differencemap, plot_3d_differencemap_body, differencemap_eye,
  get_3d_vectors, field_error. frame_tac; dk_solve. Qed.

#[export] Hint Resolve frame_deepcopy_dk frame_new_axes_dk frame_vectormap_dk
  frame_differencemap_dk : frame.

Lemma accumulate_counts x m av s s' u :
  accumulate x m av s = (s', Ok u) ->
  compare_calls (trace s') = compare_calls (trace s) /\
  accumulations (trace s') = S (accumulations (trace s)) /\ colorbars (trace s') = colorbars (trace s).
Proof.
  intros H. unfold accumulate in H. peel H.
  destruct (pupil_compare_rotations a3); [|discriminate].
  peel H. unfold emit, modify in Hstep4. inversion Hstep4; subst. clear Hstep4.
  qsteps. simpl in *.
  rewrite compare_calls_app, accumulations_app, colorbars_app in *. simpl in *.
  rewrite app_nil_r in *. split; [congruence | split; lia].
Qed.

Lemma dict_items_ok_inv v s s' d :
  dict_items v s = (s', Ok d) -> s' = s /\ exists r, v = VRef r /\ heap s !! r = Some (ODict d).
Proof.
  destruct v; simpl; try discriminate. unfold heap_obj, bind, get, ret, raise.
  destruct (heap s !! r) as [[l|d']|] eqn:E; simpl; intros H; inversion H; subst; eauto.
Qed.

Lemma peek_dict_false s v k :
  peek_dict s v k = VBool false ->
  exists r d, v = VRef r /\ heap s !! r = Some (ODict d) /\ dget d k = Some (VBool false).
Proof.
  unfold peek_dict. destruct v; try discriminate.
  destruct (heap s !! r) as [[l|d]|] eqn:Er; try discriminate.
  destruct (dget d k) eqn:E; [|discriminate]. intros ->. eauto.
Qed.

Lemma dget_kw_spread ex d rest k v :
  dget ex k = None -> dget d k = Some v -> dget (ex ++ concat (d :: rest))%list k = Some v.
Proof. intros He Hd. rewrite dget_app_None by exact He. simpl. apply dget_app_Some, Hd. Qed.

Lemma dk_step {A} r k (m : M A) s s' x :
  frame (dict_keeps r k) m -> m s = (s', x) -> dict_keeps r k s s'.
Proof. apply frame_run. Qed.

(** One invocation of [compare_3d_vectormaps_body]: it records itself, with
    the arguments it sees, accumulates one point when [total_error] is set,
    and attaches at most one colorbar, none when its [kwargsD] holds
    [colorbar=False]. *)
Lemma compare_body_counts geometry point_error np_mean p s s' v :
  compare_3d_vectormaps_body geometry point_error np_mean p s = (s', Ok v) ->
  compare_calls (trace s') =
    (compare_calls (trace s) ++
     [mkCompareCall (arg (cp_kwargs p) "elev" VNone) (arg (cp_kwargs p) "azim" VNone)
        (cp_illustrate p) (cp_total_error p) (peek_dict s (cp_kwargsD p) "colorbar")])%list /\
  (forall tb, cp_total_error p = VBool tb ->
   accumulations (trace s') = accumulations (trace s) + (if tb then 1 else 0)) /\
  colorbars (trace s') <= colorbars (trace s) + 1 /\
  (peek_dict s (cp_kwargsD p) "colorbar" = VBool false -> colorbars (trace s') = colorbars (trace s)).
Proof.
  intros H. unfold compare_3d_vectormaps_body in H. peel H.
  unfold get in Hstep. injection Hstep as <- <-.
  (* the dictionary [kwargsD] up to its reading for the main difference map *)
  assert (Hdk : forall r, dict_keeps r "colorbar" s s19).
  { intros r.
    repeat match goal with
    | |- dict_keeps _ _ ?st ?st => reflexivity
    | Hs : ?m ?st = (?st', _) |- dict_keeps r _ ?st _ =>
        transitivity st'; [exact (dk_step r "colorbar" m st st' _ ltac:(frame_tac; dk_solve) Hs)|]
    end. }
  unfold emit, modify in Hstep0. inversion Hstep0; subst. clear Hstep0.
  assert (Hte : forall tb, cp_total_error p = VBool tb -> a2 = tb).
  { intros tb Htb. rewrite Htb in Hstep2. apply truthy_bool_ok in Hstep2. tauto. }
  (* the biphasic difference map has [colorbar=False] *)
  assert (Hrev : compare_calls (trace s18) = compare_calls (trace s17) /\
                 accumulations (trace s18) = accumulations (trace s17) /\
                 colorbars (trace s18) = colorbars (trace s17)).
  { destruct a16.
    - apply bind_ok_inv in Hstep17 as (t1 & kd & B1 & Hstep17).
      apply bind_ok_inv in Hstep17 as (t2 & ax & B2 & Hstep17).
      apply bind_ok_inv in Hstep17 as (t3 & kw & B3 & Hstep17).
      apply bind_ok_inv in Hstep17 as (t4 & r & B4 & Hstep17).
      apply ret_ok_inv in Hstep17 as [-> _].
      apply dict_items_ok_inv in B1 as [-> _]. qstep B2.
      apply call_kwargs_ok_inv in B3 as [-> ->].
      apply differencemap_counts in B4 as (Kc & Ka & _ & Kf).
      assert (Kf' : colorbars (trace t4) = colorbars (trace t2))
        by (apply Kf, dget_kw_spread; [reflexivity | apply dget_dset_eq]).
      split; [congruence | split; lia].
    - apply ret_ok_inv in Hstep17 as [-> _]. auto. }
  clear Hstep17.
  (* the main difference map *)
  pose proof Hstep19 as Hd19.
  apply dict_items_ok_inv in Hstep19 as [-> (r & Hr & Hr19)].
  apply call_kwargs_ok_inv in Hstep20 as [-> ->].
  apply differencemap_counts in Hstep21 as (Mc & Ma & Mb & Mf).
  (* the total error panel *)
  assert (Hacc : compare_calls (trace s24) = compare_calls (trace s23) /\
                 accumulations (trace s24) = accumulations (trace s23) + (if a2 then 1 else 0) /\
                 colorbars (trace s24) = colorbars (trace s23)).
  { destruct a2.
    - peel Hstep23.
      match goal with Hs : accumulate _ _ _ _ = _ |- _ =>
        apply accumulate_counts in Hs as (Ac & Aa & Ab) end.
      qsteps.
      split; [congruence | split; lia].
    - apply ret_ok_inv in Hstep23 as [-> _]. split; [reflexivity | split; lia]. }
  clear Hstep23.
  qsteps. simpl in *.
  rewrite compare_calls_app, accumulations_app, colorbars_app in *. simpl in *.
  rewrite app_nil_r in *.
  destruct Hrev as (Rc & Ra & Rb). destruct Hacc as (Ac & Aa & Ab).
  unfold arg. split; [congruence|]. split.
  { intros tb Htb. apply Hte in Htb as ->. lia. }
  split; [lia|].
  intros Hf. apply peek_dict_false in Hf as (r' & d & Er & Hd & Kd).
  rewrite Hr in Er. injection Er as <-.
  destruct (Hdk r d Hd) as (d' & Ed' & Kd'). simpl in Ed'. rewrite Hr19 in Ed'.
  injection Ed' as <-.
  assert (colorbars (trace s22) = colorbars (trace s19)) by (apply Mf, dget_app_Some; congruence).
  lia.
Qed.

Lemma compare_counts geometry point_error np_mean pos kw s s' v :
  compare_3d_vectormaps geometry point_error np_mean pos kw s = (s', Ok v) ->
  exists b e, py_bind compare_params true pos kw = Some (b, e) /\
  compare_calls (trace s') =
    (compare_calls (trace s) ++
     [mkCompareCall (arg e "elev" VNone) (arg e "azim" VNone)
        (arg b "illustrate" (VBool true)) (arg b "total_error" (VBool true))
        (peek_dict s (arg b "kwargsD" (VRef DEFAULT_KWARGSD)) "colorbar")])%list /\
  (forall tb, arg b "total_error" (VBool true) = VBool tb ->
   accumulations (trace s') = accumulations (trace s) + (if tb then 1 else 0)) /\
  colorbars (trace s') <= colorbars (trace s) + 1 /\
  (peek_dict s (arg b "kwargsD" (VRef DEFAULT_KWARGSD)) "colorbar" = VBool false ->
   colorbars (trace s') = colorbars (trace s)).
Proof.
  intros H. unfold compare_3d_vectormaps in H. peel H.
  apply bind_args_ok_inv in Hstep as [-> Hb]. destruct a as [b e].
  unfold cmp_params, req in Hstep0. cbn [fst snd] in Hstep0.
  destruct (dget b "manalyser1"), (dget b "manalyser2"); simpl in Hstep0; try discriminate.
  injection Hstep0 as <- <-.
  apply compare_body_counts in H. exists b, e. split; [exact Hb | exact H].
Qed.

Lemma arg_param ps vk pos kw b e k v d :
  py_bind ps vk pos kw = Some (b, e) -> is_param ps k = true -> dget kw k = Some v -> arg b k d = v.
Proof. intros Hb Hp Hk. unfold arg. rewrite (py_bind_param _ _ _ _ _ _ _ _ Hb Hp Hk). reflexivity. Qed.

Lemma arg_extra ps pos kw b e k v d :
  py_bind ps true pos kw = Some (b, e) -> is_param ps k = false -> dget kw k = Some v -> arg e k d = v.
Proof. intros Hb Hp Hk. unfold arg. rewrite (py_bind_extra _ _ _ _ _ _ _ Hb Hp Hk). reflexivity. Qed.

(** One view of the Multi-View Orchestrator: a fresh [kwargsD] holding
    [colorbar=flag], then [compare_3d_vectormaps] with [illustrate=flag],
    [total_error=flag] and the view's camera in the keywords. *)
Lemma compare_in_view geometry point_error np_mean pos axl bp flag d vw el az s s1 s2 s3 vD kw u :
  new_obj (ODict d) s = (s1, Ok vD) ->
  call_kwargs [("axes", axl); ("biphasic", VBool bp); ("kwargsD", vD);
               ("illustrate", VBool flag); ("total_error", VBool flag)]
              [dset (dset vw "elev" (VInt el)) "azim" (VInt az)] s1 = (s2, Ok kw) ->
  compare_3d_vectormaps geometry point_error np_mean pos kw s2 = (s3, Ok u) ->
  dget d "colorbar" = Some (VBool flag) ->
  compare_calls (trace s3) =
    (compare_calls (trace s) ++
     [mkCompareCall (VInt el) (VInt az) (VBool flag) (VBool flag) (VBool flag)])%list /\
  accumulations (trace s3) = accumulations (trace s) + (if flag then 1 else 0) /\
  colorbars (trace s3) <= colorbars (trace s) + (if flag then 1 else 0).
Proof.
  intros Hn Hk Hcmp Hd.
  pose proof Hn as Hq. apply new_obj_ok_inv in Hn as (-> & _ & Hheap & _).
  qstep Hq. apply call_kwargs_ok_inv in Hk as [-> ->].
  apply compare_counts in Hcmp as (b & e & Hbind & Cc & Ca & Cb & Cf).
  assert (Hil : arg b "illustrate" (VBool true) = VBool flag)
    by (eapply arg_param; [exact Hbind | reflexivity | reflexivity]).
  assert (Hte : arg b "total_error" (VBool true) = VBool flag)
    by (eapply arg_param; [exact Hbind | reflexivity | reflexivity]).
  assert (HkD : arg b "kwargsD" (VRef DEFAULT_KWARGSD) = VRef (fresh (dom (heap s))))
    by (eapply arg_param; [exact Hbind | reflexivity | reflexivity]).
  assert (Hel : arg e "elev" VNone = VInt el).
  { eapply arg_extra; [exact Hbind | reflexivity|]. apply dget_kw_spread; [reflexivity|].
    rewrite dget_dset_ne by reflexivity. apply dget_dset_eq. }
  assert (Haz : arg e "azim" VNone = VInt az).
  { eapply arg_extra; [exact Hbind | reflexivity|]. apply dget_kw_spread; [reflexivity|].
    apply dget_dset_eq. }
  assert (Hp : peek_dict s1 (VRef (fresh (dom (heap s)))) "colorbar" = VBool flag).
  { unfold peek_dict. rewrite Hheap, lookup_insert_eq, Hd. reflexivity. }
  rewrite Hil, Hte, HkD, Hel, Haz, Hp in *.
  split; [congruence|]. split.
  - rewrite (Ca flag eq_refl). destruct flag; lia.
  - destruct flag; [lia|]. rewrite Cf by reflexivity. lia.
Qed.

(** One iteration of the view loop of the Multi-View Orchestrator. *)
Ltac view_iter Hv :=
  peel Hv; cbn [Nat.eqb] in Hv; peel Hv;
  match goal with
  | Hn : new_obj (ODict _) _ = _, Hk : call_kwargs _ _ _ = _,
    Hc : compare_3d_vectormaps _ _ _ _ _ _ = _ |- _ =>
      pose proof (compare_in_view _ _ _ _ _ _ _ _ _ _ _ _ _ _ _ _ _ _ Hn Hk Hc eq_refl)
        as (?Vc & ?Va & ?Vb);
      clear Hn Hk Hc
  end.

Lemma frame_all_of_quiet {A} (m : M A) :
  frame (events_only quiet) m -> frame (events_only (fun _ => True)) m.
Proof.
  intros H s. destruct (H s) as (l & E & F). exists l. split; [exact E|].
  apply Forall_forall. auto.
Qed.

Lemma frame_differencemap_all geometry point_error pos kw :
  frame (events_only (fun _ => True)) (plot_3d_differencemap geometry point_error pos kw).
Proof. unfold plot_3d_differencemap, plot_3d_differencemap_body. frame_tac; ev_solve. Qed.

#[export] Hint Resolve frame_differencemap_all : frame.
#[export] Hint Extern 2 (frame (events_only (fun _ => True)) _) =>
  apply frame_all_of_quiet; solve [eauto with frame] : frame.

Lemma frame_compare_all geometry point_error np_mean pos kw :
  frame (events_only (fun _ => True)) (compare_3d_vectormaps geometry point_error np_mean pos kw).
Proof. unfold compare_3d_vectormaps, compare_3d_vectormaps_body. frame_tac; ev_solve. Qed.

#[export] Hint Resolve frame_compare_all : frame.

Lemma frame_manyviews_all geometry point_error np_mean pos kw :
  frame (events_only (fun _ => True))
    (compare_3d_vectormaps_manyviews geometry point_error np_mean pos kw).
Proof. unfold compare_3d_vectormaps_manyviews. frame_tac; ev_solve. Qed.

(** ** Running error series *)

Lemma accs_app z l1 l2 : accs z (l1 ++ l2) = (accs z l1 ++ accs z l2)%list.
Proof. induction l1 as [|[] l1 IH]; simpl; try destruct (Nat.eqb _ _); simpl; congruence. Qed.

Lemma accs_none z l : Forall no_acc l -> accs z l = [].
Proof. induction 1 as [|x l' Hx _ IH]; [reflexivity|]; destruct x; simpl in *; tauto. Qed.

#[export] Instance series_frame_refl : Reflexive series_frame.
Proof. intros s. split; [reflexivity | auto]. Qed.
#[export] Instance series_frame_trans : Transitive series_frame.
Proof.
  intros s1 s2 s3 [E1 K1] [E2 K2]. split; [etransitivity; eassumption | intros z; congruence].
Qed.

#[export] Instance list_extends_refl r : Reflexive (list_extends r).
Proof. intros s l Hl. exists []. rewrite app_nil_r. exact Hl. Qed.
#[export] Instance list_extends_trans r : Transitive (list_extends r).
Proof.
  intros s1 s2 s3 H1 H2 l Hl. destruct (H1 l Hl) as (l1 & E1).
  destruct (H2 _ E1) as (l2 & E2). exists (l1 ++ l2)%list. rewrite app_assoc. exact E2.
Qed.

Lemma get_ax_ok_inv x s s' a : get_ax x s = (s', Ok a) -> s' = s /\ axes_store s !! x = Some a.
Proof.
  unfold get_ax, bind, get. simpl. destruct (axes_store s !! x) eqn:E; simpl; intros H.
  - inversion H. subst. auto.
  - discriminate.
Qed.

Lemma update_ax_ok_inv x f s s' u :
  update_ax x f s = (s', Ok u) ->
  exists a, axes_store s !! x = Some a /\
  s' = mkState (heap s) (analysers s) (<[x := f a]> (axes_store s)) (trace s).
Proof.
  unfold update_ax, get_ax, put_ax, bind, get, modify, ret, raise. simpl.
  destruct (axes_store s !! x) eqn:E; simpl; intros H; inversion H; subst; eauto.
Qed.

Lemma series_of_insert_ne s h an st tr x a z :
  x <> z -> axes_store s = st ->
  series_of (mkState h an (<[x := a]> st) tr) z = series_of s z.
Proof. intros Hne <-. unfold series_of. simpl. rewrite lookup_insert_ne by exact Hne. reflexivity. Qed.

Lemma frame_update_ax_sf x f :
  (forall a, pupil_compare_errors (f a) = pupil_compare_errors a /\
             pupil_compare_rotations (f a) = pupil_compare_rotations a) ->
  frame series_frame (update_ax x f).
Proof.
  intros Hf s. unfold update_ax, get_ax, put_ax, bind, get, modify, ret, raise. simpl.
  destruct (axes_store s !! x) as [a|] eqn:E; simpl; [|reflexivity].
  split; [exists []; simpl; rewrite app_nil_r; auto|].
  intros z. destruct (decide (x = z)) as [<-|Hne].
  - unfold series_of. simpl. rewrite lookup_insert_eq, E. destruct (Hf a) as [-> ->]. reflexivity.
  - apply series_of_insert_ne; auto.
Qed.

Lemma frame_new_axis_sf : frame series_frame new_axis.
Proof.
  intros s. unfold new_axis, put_ax, bind, get, modify, ret. simpl.
  split; [exists []; simpl; rewrite app_nil_r; auto|].
  intros z. destruct (decide (fresh (dom (axes_store s)) = z)) as [<-|Hne].
  - unfold series_of. simpl. rewrite lookup_insert_eq.
    pose proof (is_fresh (dom (axes_store s))) as F.
    rewrite not_elem_of_dom in F. rewrite F. reflexivity.
  - apply series_of_insert_ne; auto.
Qed.

Ltac sf_solve :=
  match goal with
  | |- series_frame _ _ => split; [ev_solve | intros ?; reflexivity]
  end.

#[export] Hint Resolve frame_new_axis_sf : frame.
#[export] Hint Extern 1 (frame series_frame (update_ax _ _)) =>
  apply frame_update_ax_sf; intros; split; reflexivity : frame.

Lemma frame_new_axes_sf n : frame series_frame (new_axes n).
Proof. induction n; simpl; frame_tac; sf_solve. Qed.

Lemma frame_vectormap_sf geometry pos kw : frame series_frame (plot_3d_vectormap geometry pos kw).
Proof. frame_tac; sf_solve. Qed.

Lemma frame_illustration_sf p axes iax : frame series_frame (illustration p axes iax).
Proof. frame_tac; sf_solve. Qed.

Lemma frame_differencemap_sf geometry point_error pos kw :
  frame series_frame (plot_3d_differencemap geometry point_error pos kw).
Proof. unfold plot_3d_differencemap, plot_3d_differencemap_body, differencemap_eye,
  get_3d_vectors, field_error. frame_tac; sf_solve. Qed.

#[export] Hint Resolve frame_new_axes_sf frame_vectormap_sf frame_illustration_sf
  frame_differencemap_sf : frame.

Ltac le_solve :=
  match goal with
  | |- list_extends _ _ _ => intros ? ?; simpl; exists []; rewrite app_nil_r; assumption
  end.

Lemma frame_new_obj_le r o : frame (list_extends r) (new_obj o).
Proof.
  intros s l Hl. exists []. rewrite app_nil_r. cbn.
  rewrite lookup_insert_ne; [exact Hl|]. intros E.
  pose proof (is_fresh (dom (heap s))) as F. rewrite E in F. apply F, elem_of_dom. eauto.
Qed.

Lemma frame_list_append_le r v x : frame (list_extends r) (list_append v x).
Proof.
  intros s l Hl. destruct v as [| | | | | r' | |]; try (simpl; exists []; rewrite app_nil_r; auto; fail).
  unfold list_append, heap_obj, bind, get, ret, raise, heap_put, modify.
  destruct (heap s !! r') as [[l'|d']|] eqn:E; cbn; try (exists []; rewrite app_nil_r; auto; fail).
  destruct (decide (r' = r)) as [->|Hne].
  - rewrite Hl in E. injection E as E. subst l'. exists [x]. rewrite lookup_insert_eq. reflexivity.
  - exists []. rewrite app_nil_r, lookup_insert_ne by congruence. auto.
Qed.

Lemma frame_dict_setitem_le r v k x : frame (list_extends r) (dict_setitem v k x).
Proof.
  intros s l Hl. destruct v as [| | | | | r' | |]; try (simpl; exists []; rewrite app_nil_r; auto; fail).
  unfold dict_setitem, dict_items, heap_obj, bind, get, ret, raise, heap_put, modify.
  destruct (heap s !! r') as [[l'|d']|] eqn:E; cbn; try (exists []; rewrite app_nil_r; auto; fail).
  destruct (decide (r' = r)) as [->|Hne]; [congruence|].
  exists []. rewrite app_nil_r, lookup_insert_ne by congruence. auto.
Qed.

#[export] Hint Resolve frame_new_obj_le frame_list_append_le frame_dict_setitem_le : frame.

Lemma frame_deepcopy_le r fuel :
  forall memo v, frame (list_extends r) (deepcopy fuel memo v).
Proof. induction fuel; intros memo v; simpl; frame_tac; le_solve. Qed.

Lemma frame_new_axes_le r n : frame (list_extends r) (new_axes n).
Proof. induction n; simpl; frame_tac; le_solve. Qed.

Lemma frame_vectormap_le r geometry pos kw :
  frame (list_extends r) (plot_3d_vectormap geometry pos kw).
Proof. frame_tac; le_solve. Qed.

Lemma frame_illustration_le r p axes iax : frame (list_extends r) (illustration p axes iax).
Proof. frame_tac; le_solve. Qed.

Lemma frame_differencemap_le r geometry point_error pos kw :
  frame (list_extends r) (plot_3d_differencemap geometry point_error pos kw).
Proof. unfold plot_3d_differencemap, plot_3d_differencemap_body, differencemap_eye,
  get_3d_vectors, field_error. frame_tac; le_solve. Qed.

#[export] Hint Resolve frame_deepcopy_le frame_new_axes_le frame_vectormap_le
  frame_illustration_le frame_differencemap_le : frame.

(** [field_error] in directional mode *)
Lemma frame_differencemap_eye_cf geometry point_error m1 m2 x r eye :
  frame (events_only colinear_false)
    (differencemap_eye geometry point_error m1 m2 x (VBool false) r eye).
Proof. unfold differencemap_eye, get_3d_vectors, field_error. frame_tac; ev_solve. Qed.

Lemma frame_vectormap_cf geometry pos kw :
  frame (events_only colinear_false) (plot_3d_vectormap geometry pos kw).
Proof. frame_tac; ev_solve. Qed.

Lemma frame_illustration_cf p axes iax :
  frame (events_only colinear_false) (illustration p axes iax).
Proof. frame_tac; ev_solve. Qed.

Lemma frame_new_axes_cf n : frame (events_only colinear_false) (new_axes n).
Proof. induction n; simpl; frame_tac; ev_solve. Qed.

#[export] Hint Resolve frame_differencemap_eye_cf frame_vectormap_cf frame_illustration_cf
  frame_new_axes_cf : frame.

Lemma differencemap_body_cf geometry point_error p :
  dm_colinear p = VBool false ->
  frame (events_only colinear_false) (plot_3d_differencemap_body geometry point_error p).
Proof. intros Hc. unfold plot_3d_differencemap_body. rewrite Hc. frame_tac; ev_solve. Qed.

Lemma differencemap_cf geometry point_error pos kw s s' v :
  plot_3d_differencemap geometry point_error pos kw s = (s', Ok v) ->
  dget kw "colinear" = Some (VBool false) -> events_only colinear_false s s'.
Proof.
  intros H Hk. unfold plot_3d_differencemap in H. peel H.
  apply bind_args_ok_inv in Hstep as [-> Hb]. destruct a as [b e].
  unfold diff_params, req, bind, ret, raise in Hstep0. cbn [fst snd] in Hstep0.
  destruct (dget b "manalyser1"), (dget b "manalyser2"); try discriminate.
  injection Hstep0 as <- <-.
  eapply frame_run; [apply differencemap_body_cf | exact H]. simpl. unfold arg.
  erewrite (py_bind_param _ _ _ _ _ _ "colinear" _ Hb); [reflexivity | reflexivity | exact Hk].
Qed.

Lemma accumulate_series x m av s s' u :
  accumulate x m av s = (s', Ok u) ->
  trace s' = (trace s ++ [EAccumulate x av])%list /\
  series_of s' x = Some (fst (default ([], []) (series_of s x)) ++ [m],
                         snd (default ([], []) (series_of s x)) ++ [av])%list /\
  forall z, x <> z -> series_of s' z = series_of s z.
Proof.
  intros H. unfold accumulate in H. peel H.
  apply get_ax_ok_inv in Hstep as [-> Ea].
  destruct (pupil_compare_errors a) as [es|] eqn:Ees.
  - apply ret_ok_inv in Hstep0 as [-> _].
    apply get_ax_ok_inv in Hstep1 as [-> Ea1]. rewrite Ea in Ea1. injection Ea1 as <-.
    rewrite Ees in Hstep2. apply update_ax_ok_inv in Hstep2 as (a2' & Ea2 & ->).
    rewrite Ea in Ea2. injection Ea2 as <-.
    apply get_ax_ok_inv in Hstep3 as [-> Ea3]. simpl in Ea3. rewrite lookup_insert_eq in Ea3.
    injection Ea3 as <-. simpl in H.
    destruct (pupil_compare_rotations a) as [rs|] eqn:Ers; [|discriminate].
    peel H. unfold emit, modify in Hstep. injection Hstep as <- _.
    apply update_ax_ok_inv in H as (a4 & Ea4 & ->). simpl in Ea4. rewrite lookup_insert_eq in Ea4.
    injection Ea4 as <-.
    assert (Eso : series_of s x = Some (es, rs)) by (unfold series_of; rewrite Ea, Ees, Ers; reflexivity).
    rewrite Eso. simpl. split; [reflexivity|]. split.
    + unfold series_of. simpl. rewrite lookup_insert_eq. reflexivity.
    + intros z Hne. unfold series_of. simpl. rewrite !lookup_insert_ne by exact Hne. reflexivity.
  - apply update_ax_ok_inv in Hstep0 as (a0' & Ea0 & ->). rewrite Ea in Ea0. injection Ea0 as <-.
    apply get_ax_ok_inv in Hstep1 as [-> Ea1]. simpl in Ea1. rewrite lookup_insert_eq in Ea1.
    injection Ea1 as <-. simpl in Hstep2.
    apply update_ax_ok_inv in Hstep2 as (a2' & Ea2 & ->). simpl in Ea2.
    rewrite lookup_insert_eq in Ea2. injection Ea2 as <-.
    apply get_ax_ok_inv in Hstep3 as [-> Ea3]. simpl in Ea3. rewrite lookup_insert_eq in Ea3.
    injection Ea3 as <-. simpl in H.
    peel H. unfold emit, modify in Hstep. injection Hstep as <- _.
    apply update_ax_ok_inv in H as (a4 & Ea4 & ->). simpl in Ea4. rewrite lookup_insert_eq in Ea4.
    injection Ea4 as <-.
    assert (Eso : series_of s x = None) by (unfold series_of; rewrite Ea, Ees; reflexivity).
    rewrite Eso. simpl. split; [reflexivity|]. split.
    + unfold series_of. simpl. rewrite lookup_insert_eq. reflexivity.
    + intros z Hne. unfold series_of. simpl. rewrite !lookup_insert_ne by exact Hne. reflexivity.
Qed.

Lemma getitem_list_ok r l i s s' v :
  heap s !! r = Some (OList l) -> getitem (VRef r) i s = (s', Ok v) -> l !! i = Some v.
Proof.
  intros Hr. unfold getitem, seq_items, heap_obj, bind, get, ret, raise. simpl. rewrite Hr. simpl.
  destruct (l !! i); simpl; intros H; inversion H; auto.
Qed.

Lemma series_of_trace s tr : series_of (mkState (heap s) (analysers s) (axes_store s) tr) = series_of s.
Proof. reflexivity. Qed.

(** One invocation of [compare_3d_vectormaps_body]: the running error
    series of every Axes object grows by the points accumulated for it, and
    with [total_error=True] exactly one point, the animation variable, is
    accumulated, for the Axes object at the total-error slot of [axes]. *)
Lemma compare_body_series geometry point_error np_mean p s s' v :
  compare_3d_vectormaps_body geometry point_error np_mean p s = (s', Ok v) ->
  exists l, trace s' = (trace s ++ l)%list /\
  (forall z, series_grows (series_of s z) (series_of s' z) (accs z l)) /\
  (forall c bp il r la y, cp_total_error p = VBool true -> cp_compact p = VBool c ->
     cp_biphasic p = VBool bp -> cp_illustrate p = VBool il -> cp_axes p = VRef r ->
     heap s !! r = Some (OList la) -> la !! total_error_slot c bp il = Some (VAx y) ->
     forall z, accs z l = if Nat.eqb y z then [cp_animation_variable p] else []).
Proof.
  intros H. unfold compare_3d_vectormaps_body in H. peel H.
  unfold get in Hstep. injection Hstep as <- <-.
  unfold emit, modify in Hstep0. injection Hstep0 as <- _.
  assert (Hsf : series_frame (mkState (heap s) (analysers s) (axes_store s)
                  (trace s ++ [ECompare (mkCompareCall
                     (match dget (cp_kwargs p) "elev" with Some v => v | None => VNone end)
                     (match dget (cp_kwargs p) "azim" with Some v => v | None => VNone end)
                     (cp_illustrate p) (cp_total_error p) (peek_dict s (cp_kwargsD p) "colorbar"))])) s23).
  { repeat match goal with
    | |- series_frame ?st ?st => reflexivity
    | Hs : ?m ?st = (?st', _) |- series_frame ?st _ =>
        transitivity st'; [exact (frame_run series_frame m st st' _ ltac:(frame_tac; sf_solve) Hs)|]
    end. }
  set (s1 := mkState (heap s) (analysers s) (axes_store s) _) in Hsf.
  assert (Hle : forall r, list_extends r s1 s23).
  { intros r.
    repeat match goal with
    | |- list_extends _ ?st ?st => reflexivity
    | Hs : ?m ?st = (?st', _) |- list_extends r ?st _ =>
        transitivity st'; [exact (frame_run (list_extends r) m st st' _ ltac:(frame_tac; le_solve) Hs)|]
    end. }
  destruct Hsf as [(l1 & E1 & F1) S1].
  assert (Hte : cp_total_error p = VBool true -> a2 = true).
  { intros Htb. rewrite Htb in Hstep2. apply truthy_bool_ok in Hstep2. tauto. }
  destruct a2.
  - apply bind_ok_inv in Hstep23 as (t1 & axv & G1 & Hstep23).
    apply bind_ok_inv in Hstep23 as (t2 & x & G2 & Hstep23).
    apply bind_ok_inv in Hstep23 as (t3 & u3 & G3 & Hstep23).
    pose proof G1 as G1'. pure_step G1'. pose proof G2 as G2'. pure_step G2'.
    apply accumulate_series in G3 as (A1 & A2 & A3).
    assert (R2 : series_frame t3 s24)
      by ((eapply frame_run; [idtac | exact Hstep23]); frame_tac; sf_solve).
    destruct R2 as [(l2 & E2 & F2) S2].
    apply ret_ok_inv in H as [-> _].
    exists ([ECompare (mkCompareCall
                     (match dget (cp_kwargs p) "elev" with Some v => v | None => VNone end)
                     (match dget (cp_kwargs p) "azim" with Some v => v | None => VNone end)
                     (cp_illustrate p) (cp_total_error p) (peek_dict s (cp_kwargsD p) "colorbar"))]
            ++ l1 ++ [EAccumulate x (cp_animation_variable p)] ++ l2)%list.
    assert (Hacc : forall z, accs z ([ECompare (mkCompareCall
                     (match dget (cp_kwargs p) "elev" with Some v => v | None => VNone end)
                     (match dget (cp_kwargs p) "azim" with Some v => v | None => VNone end)
                     (cp_illustrate p) (cp_total_error p) (peek_dict s (cp_kwargsD p) "colorbar"))]
            ++ l1 ++ [EAccumulate x (cp_animation_variable p)] ++ l2)%list =
            if Nat.eqb x z then [cp_animation_variable p] else []).
    { intros z. rewrite !accs_app, (accs_none z l1 F1), (accs_none z l2 F2). simpl.
      destruct (Nat.eqb x z); reflexivity. }
    split; [rewrite E2, A1, E1; subst s1; simpl; rewrite <- !app_assoc; reflexivity|].
    split.
    + intros z. rewrite Hacc. destruct (Nat.eqb x z) eqn:Exz.
      * apply Nat.eqb_eq in Exz. subst z. simpl. eexists [_]. split; [reflexivity|].
        rewrite S2, A2, S1. reflexivity.
      * apply Nat.eqb_neq in Exz. simpl. rewrite S2, A3 by exact Exz. rewrite S1. reflexivity.
    + intros c bp il r la y Htb Hc Hbp Hil Hax Hr Hy z. rewrite Hacc.
      assert (Hrr : fst a17 = if a16 then S (if a1 then 0 else 1) else if a1 then 0 else 1).
      { destruct a16.
        - peel Hstep17. apply ret_ok_inv in Hstep17 as [_ ->]. reflexivity.
        - apply ret_ok_inv in Hstep17 as [_ ->]. reflexivity. }
      assert (Hio : fst a22 = if a3 then S (S (fst a17)) else S (fst a17)).
      { destruct a3.
        - peel Hstep22. apply ret_ok_inv in Hstep22 as [_ ->]. reflexivity.
        - apply ret_ok_inv in Hstep22 as [_ ->]. reflexivity. }
      rewrite Hc in Hstep1. apply truthy_bool_ok in Hstep1 as [_ ->].
      rewrite Hil in Hstep3. apply truthy_bool_ok in Hstep3 as [_ ->].
      rewrite Hbp in Hstep16. apply truthy_bool_ok in Hstep16 as [_ ->].
      rewrite Hax in Hstep4. cbn [is_none] in Hstep4. apply ret_ok_inv in Hstep4 as [_ ->].
      assert (Hslot : S (fst a22) = total_error_slot c bp il).
      { rewrite Hio, Hrr. unfold total_error_slot. destruct c, bp, il; reflexivity. }
      rewrite Hslot in G1.
      destruct (Hle r la Hr) as (l' & Hl').
      apply (getitem_list_ok _ _ _ _ _ _ Hl') in G1.
      rewrite (lookup_app_l_Some _ _ _ _ Hy) in G1. injection G1 as <-.
      simpl in G2. injection G2 as E. subst. reflexivity.
  - apply ret_ok_inv in Hstep23 as [-> _]. apply ret_ok_inv in H as [-> _].
    exists ([ECompare (mkCompareCall
                     (match dget (cp_kwargs p) "elev" with Some v => v | None => VNone end)
                     (match dget (cp_kwargs p) "azim" with Some v => v | None => VNone end)
                     (cp_illustrate p) (cp_total_error p) (peek_dict s (cp_kwargsD p) "colorbar"))]
            ++ l1)%list.
    split; [rewrite E1; subst s1; simpl; rewrite <- !app_assoc; reflexivity|].
    split.
    + intros z. rewrite accs_app, (accs_none z l1 F1). simpl. rewrite S1. reflexivity.
    + intros c bp il r la y Htb. specialize (Hte Htb). discriminate.
Qed.

Lemma tilt_not_rotate_arrows v : is_tilt v = true -> py_eq_str v "rotate_arrows" = false.
Proof. destruct v; simpl; try discriminate. intros H. destruct (String.eqb_spec s "rotate_arrows"); [subst; discriminate | reflexivity]. Qed.

Lemma dict_setitem_ok_inv v k x s s' u :
  dict_setitem v k x s = (s', Ok u) ->
  exists r d, v = VRef r /\ heap s !! r = Some (ODict d) /\ heap s' !! r = Some (ODict (dset d k x)).
Proof.
  unfold dict_setitem, bind. destruct (dict_items v s) as [s1 [d|e]] eqn:E; [|discriminate].
  apply dict_items_ok_inv in E as [-> (r & -> & Hr)].
  unfold heap_put, modify. intros H. injection H as <- _. exists r, d. simpl.
  rewrite lookup_insert_eq. auto.
Qed.

(** With a tilt [animation_type], every [field_error] call of an invocation
    of [compare_3d_vectormaps_body] is in directional mode. *)
Lemma compare_body_colinear geometry point_error np_mean p s s' v :
  is_tilt (cp_animation_type p) = true ->
  compare_3d_vectormaps_body geometry point_error np_mean p s = (s', Ok v) ->
  events_only colinear_false s s'.
Proof.
  intros Ht H. unfold compare_3d_vectormaps_body in H. peel H.
  (* [kwargsD['colinear'] = False] *)
  assert (Hk : exists r d, cp_kwargsD p = VRef r /\ heap s6 !! r = Some (ODict d) /\
                           dget d "colinear" = Some (VBool false)).
  { pose proof Hstep5 as K. rewrite (tilt_not_rotate_arrows _ Ht), Ht in K.
    apply bind_ok_inv in K as (t1 & u & K1 & K2). apply ret_ok_inv in K2 as [-> _].
    apply dict_setitem_ok_inv in K1 as (r & d & Er & _ & Hr). exists r, (dset d "colinear" (VBool false)).
    split; [exact Er | split; [exact Hr | apply dget_dset_eq]]. }
  destruct Hk as (r & d & Er & Hr & Hd).
  assert (Hdk17 : dict_keeps r "colinear" s6 s17).
  { repeat match goal with
    | |- dict_keeps _ _ ?st ?st => reflexivity
    | Hs : ?m ?st = (?st', _) |- dict_keeps r _ ?st _ =>
        transitivity st'; [exact (dk_step r "colinear" m st st' _ ltac:(frame_tac; dk_solve) Hs)|]
    end. }
  assert (Hdk19 : dict_keeps r "colinear" s6 s19).
  { repeat match goal with
    | |- dict_keeps _ _ ?st ?st => reflexivity
    | Hs : ?m ?st = (?st', _) |- dict_keeps r _ ?st _ =>
        transitivity st'; [exact (dk_step r "colinear" m st st' _ ltac:(frame_tac; dk_solve) Hs)|]
    end. }
  (* the biphasic difference map *)
  assert (Cr : events_only colinear_false s17 s18).
  { pose proof Hstep17 as K. destruct a16.
    - apply bind_ok_inv in K as (t1 & kd & B1 & K).
      apply bind_ok_inv in K as (t2 & ax & B2 & K).
      apply bind_ok_inv in K as (t3 & kw & B3 & K).
      apply bind_ok_inv in K as (t4 & rd & B4 & K).
      apply ret_ok_inv in K as [-> _].
      apply dict_items_ok_inv in B1 as [-> (r' & Er' & Hr')]. rewrite Er in Er'. injection Er' as <-.
      pure_step B2. apply call_kwargs_ok_inv in B3 as [-> ->].
      destruct (Hdk17 d Hr) as (d' & Ed' & Kd'). rewrite Hr' in Ed'. injection Ed' as <-.
      apply (differencemap_cf _ _ _ _ _ _ _ B4). apply dget_kw_spread; [reflexivity|].
      rewrite dget_dset_ne by reflexivity. congruence.
    - apply ret_ok_inv in K as [-> _]. reflexivity. }
  (* the main difference map *)
  assert (Cm : events_only colinear_false s21 s22).
  { pose proof Hstep19 as B1. pose proof Hstep20 as B3. pose proof Hstep21 as B4.
    apply dict_items_ok_inv in B1 as [-> (r' & Er' & Hr')]. rewrite Er in Er'. injection Er' as <-.
    apply call_kwargs_ok_inv in B3 as [-> ->].
    destruct (Hdk19 d Hr) as (d' & Ed' & Kd'). rewrite Hr' in Ed'. injection Ed' as <-.
    apply (differencemap_cf _ _ _ _ _ _ _ B4). apply dget_kw_spread; [reflexivity|]. congruence. }
  repeat match goal with
  | |- events_only _ ?st ?st => reflexivity
  | Hs : ?m ?st = (?st', _) |- events_only colinear_false ?st _ =>
      transitivity st';
      [first [assumption | exact (frame_run (events_only colinear_false) m st st' _ ltac:(frame_tac; ev_solve) Hs)]|]
  end.
Qed.

(** [compare_3d_vectormaps] at the level of its bound arguments. *)
Lemma compare_series geometry point_error np_mean pos kw s s' v :
  compare_3d_vectormaps geometry point_error np_mean pos kw s = (s', Ok v) ->
  exists b e, py_bind compare_params true pos kw = Some (b, e) /\
  exists l, trace s' = (trace s ++ l)%list /\
  (forall z, series_grows (series_of s z) (series_of s' z) (accs z l)) /\
  (arg b "total_error" (VBool true) = VBool true -> forall y, total_error_target s b y ->
   forall z, accs z l = if Nat.eqb y z then [arg b "animation_variable" VNone] else []) /\
  (is_tilt (arg b "animation_type" VNone) = true -> Forall colinear_false l).
Proof.
  intros H. unfold compare_3d_vectormaps in H. peel H.
  apply bind_args_ok_inv in Hstep as [-> Hb]. destruct a as [b e].
  unfold cmp_params, req in Hstep0. cbn [fst snd] in Hstep0.
  destruct (dget b "manalyser1"), (dget b "manalyser2"); simpl in Hstep0; try discriminate.
  injection Hstep0 as <- <-.
  pose proof H as H'.
  apply compare_body_series in H as (l & El & Gl & Tl).
  exists b, e. split; [exact Hb|]. exists l. split; [exact El|]. split; [exact Gl|]. split.
  - intros Htb y (c & bp & il & r & la & Hc & Hbp & Hil & Hax & Hr & Hy).
    exact (Tl c bp il r la y Htb Hc Hbp Hil Hax Hr Hy).
  - intros Ht. apply compare_body_colinear in H'; [|exact Ht].
    destruct H' as (l' & El' & F'). rewrite El in El'. apply app_inv_head in El'. subst l'. exact F'.
Qed.

Lemma series_grows_one so so' av :
  series_grows so so' [av] ->
  exists m, so' = Some (fst (default ([], []) so) ++ [m], snd (default ([], []) so) ++ [av])%list.
Proof.
  intros (ms & Hl & ->). destruct ms as [|m [|]]; simpl in Hl; try discriminate. eauto.
Qed.




(** Claim C3 (counterexample): [plot_3d_vectormap] with [arrow_rotations=[29]]
    on an entity with [vector_rotation = 10] whose extraction fails at the
    rotated state raises, and the entity keeps [vector_rotation = 29]. *)
Lemma plot_3d_vectormap_rotation_left_on_raise :
  let r := plot_3d_vectormap geo_fail29 [VAn 0] [("arrow_rotations", VRef 5)] scene_rot10 in
  vector_rotation <$> analysers scene_rot10 !! 0%nat = Some (VInt 10) /\
  snd r = Err DataUnavailable /\
  vector_rotation <$> analysers (fst r) !! 0%nat = Some (VInt 29).
Proof. vm_compute. split; [reflexivity | split; reflexivity]. Qed.

(** Claim C3 (amended): when [plot_3d_vectormap] (on its first positional
    analyser) or [plot_3d_differencemap] (on entity B) returns normally, the
    entity's [vector_rotation] equals its value before the call; the
    restoration is not exception-safe. *)
Theorem renderers_restore_rotation_on_return geometry point_error s a an :
  analysers s !! a = Some an ->
  (forall rest kw s' v, plot_3d_vectormap geometry (VAn a :: rest) kw s = (s', Ok v) ->
     exists an', analysers s' !! a = Some an' /\ vector_rotation an' = vector_rotation an) /\
  (forall pos kw b e s' v, py_bind differencemap_params false pos kw = Some (b, e) ->
     dget b "manalyser2" = Some (VAn a) ->
     plot_3d_differencemap geometry point_error pos kw s = (s', Ok v) ->
     exists an', analysers s' !! a = Some an' /\ vector_rotation an' = vector_rotation an).
Proof.
  intros Ha. split.
  - intros rest kw s' v H. eapply plot_3d_vectormap_restores_rotation; eauto.
  - intros pos kw b e s' v Hb Hm H.
    rewrite (plot_3d_differencemap_an geometry point_error pos kw b e s s' v a an Hb Hm Ha H).
    eexists; split; [simplify_map_eq; reflexivity | reflexivity].
Qed.

Lemma renderers_restore_rotation_on_return_witness :
  let r := plot_3d_vectormap (geo_const 2) [VAn 0] [("arrow_rotations", VRef 5)] scene_rot10 in
  (exists v, snd r = Ok v) /\
  exists an', analysers (fst r) !! 0%nat = Some an' /\ vector_rotation an' = VInt 10.
Proof.
  cbv zeta.
  destruct (plot_3d_vectormap (geo_const 2) [VAn 0] [("arrow_rotations", VRef 5)] scene_rot10)
    as [s' res] eqn:E.
  assert (Hres : res = snd (plot_3d_vectormap (geo_const 2) [VAn 0]
                              [("arrow_rotations", VRef 5)] scene_rot10))
    by (rewrite E; reflexivity).
  vm_compute in Hres. subst res. simpl.
  split; [eexists; reflexivity|].
  apply (proj1 (renderers_restore_rotation_on_return (geo_const 2) perr_zero scene_rot10 0
                  (entity "MAnalyser" "MAnalyser" 10) ltac:(vm_compute; reflexivity))
           [] [("arrow_rotations", VRef 5)] s' _ E).
Defined.

(** Claim C9: on an OAnalyser-type entity with [arrow_rotations] bound to a
    list object holding [[0]] (the caller's or the shared default), a
    normal return leaves that object holding [[0, 29]]. *)
Theorem plot_3d_vectormap_appends_29 geometry pos kw s s' v a an rest b e r :
  pos = VAn a :: rest ->
  py_bind vectormap_params true pos kw = Some (b, e) ->
  arg b "arrow_rotations" (VRef DEFAULT_VECTORMAP_ARROWS) = VRef r ->
  heap s !! r = Some (OList [VInt 0]) ->
  analysers s !! a = Some an -> oanalyser_class an ->
  plot_3d_vectormap geometry pos kw s = (s', Ok v) ->
  heap s' !! r = Some (OList [VInt 0; VInt 29]).
Proof.
  intros -> Hbind Harr Hr Ha Hc H. unfold plot_3d_vectormap in H. peel H.
  apply ret_ok_inv in H as [-> _].
  apply bind_args_ok_inv in Hstep as [-> Hb]. rewrite Hbind in Hb. injection Hb as <-.
  simpl in *. rewrite Harr in *.
  assert (Hm := Hbind). apply py_bind_head in Hm.
  unfold req in Hstep0. rewrite Hm in Hstep0. apply ret_ok_inv in Hstep0 as [-> ->].
  apply an_obj_ok_inv in Hstep1 as [-> [= <-]].
  apply (frame_run same_an_heap) in Hstep2 as [A3 H3]; [|frame_tac; split; reflexivity].
  apply get_an_ok_inv in Hstep3 as [-> Ha4]. rewrite A3, Ha in Ha4. injection Ha4 as <-.
  destruct (vectormap_type_oanalyser an r s3 Hc) as [c Hv]; [congruence|].
  rewrite Hv in Hstep4. injection Hstep4 as <- <-.
  assert (Hr6 : heap s6 !! r = Some (OList [VInt 0])).
  { eapply new_obj_keeps; [exact Hstep5|]. congruence. }
  unfold _set_analyser_attributes, mfor in Hstep6. apply ret_ok_inv in Hstep6 as [-> _].
  simpl in Hstep7. apply append29_ok_inv in Hstep7; [|exact Hr6].
  assert (E : same_heap s8 s16).
  { apply (frame_run same_heap) in Hstep8; [|frame_tac; reflexivity].
    pure_step Hstep9.
    apply (frame_run same_heap) in Hstep10; [|frame_tac; reflexivity].
    pure_step Hstep11.
    apply (frame_run same_heap) in Hstep12; [|frame_tac; reflexivity].
    pure_step Hstep13.
    apply (frame_run same_heap) in Hstep14; [|frame_tac; reflexivity].
    apply (frame_run same_heap) in Hstep15; [|frame_tac; reflexivity].
    unfold same_heap in *. congruence. }
  unfold same_heap in E. rewrite E, Hstep7. simplify_map_eq. reflexivity.
Qed.

Lemma plot_3d_vectormap_appends_29_witness :
  heap (fst (plot_3d_vectormap (geo_const 2) [VAn 0] [] scene_oanalyser)) !! DEFAULT_VECTORMAP_ARROWS
  = Some (OList [VInt 0; VInt 29]).
Proof.
  eapply (plot_3d_vectormap_appends_29 (geo_const 2) [VAn 0] [] scene_oanalyser _ _ 0%nat
            (entity "OAnalyser" "OAnalyser" 0) [] [("manalyser", VAn 0)] []).
  - reflexivity.
  - vm_compute. reflexivity.
  - vm_compute. reflexivity.
  - vm_compute. reflexivity.
  - vm_compute. reflexivity.
  - left. reflexivity.
  - vm_compute. reflexivity.
Defined.

(** Claim C10: two calls of [compare_3d_vectormaps] whose bound arguments
    agree everywhere except at [kwargs1] and [kwargs2], and whose catch-all
    [**kwargs] agree, behave identically from the same state: same final
    state (heap, analysers, axes, trace) and same result or exception. *)
Theorem compare_3d_vectormaps_ignores_kwargs12 geometry point_error np_mean pos kw pos' kw' b b' e s :
  py_bind compare_params true pos kw = Some (b, e) ->
  py_bind compare_params true pos' kw' = Some (b', e) ->
  drop_kwargs12 b = drop_kwargs12 b' ->
  compare_3d_vectormaps geometry point_error np_mean pos kw s =
  compare_3d_vectormaps geometry point_error np_mean pos' kw' s.
Proof.
  intros Hb Hb' Hd.
  assert (E : forall k, k <> "kwargs1" -> k <> "kwargs2" -> dget b k = dget b' k).
  { intros k H1 H2. rewrite <- (dget_drop_kwargs12 b k), <- (dget_drop_kwargs12 b' k); auto.
    congruence. }
  unfold compare_3d_vectormaps, bind_args. rewrite Hb, Hb'. cbn.
  unfold cmp_params, req, arg.
  rewrite !(E "manalyser1"), !(E "manalyser2"), !(E "axes"), !(E "illustrate"),
    !(E "total_error"), !(E "compact"), !(E "animation"), !(E "animation_type"),
    !(E "animation_variable"), !(E "optimal_ranges"), !(E "pulsation_length"),
    !(E "biphasic"), !(E "kwargsD") by discriminate.
  (* the body never reads [cp_kwargs1] or [cp_kwargs2] *)
  cbn. destruct (dget b' "manalyser1"), (dget b' "manalyser2"); reflexivity.
Qed.

Lemma compare_3d_vectormaps_ignores_kwargs12_witness :
  compare_3d_vectormaps (geo_const 2) perr_zero mean_len [VAn 0; VAn 1] [("kwargs1", VRef 7)] scene_AB =
  compare_3d_vectormaps (geo_const 2) perr_zero mean_len [VAn 0; VAn 1]
    [("kwargs1", VRef 8); ("kwargs2", VNone)] scene_AB.
Proof.
  apply (compare_3d_vectormaps_ignores_kwargs12 (geo_const 2) perr_zero mean_len
           [VAn 0; VAn 1] [("kwargs1", VRef 7)] [VAn 0; VAn 1] [("kwargs1", VRef 8); ("kwargs2", VNone)]
           [("manalyser1", VAn 0); ("manalyser2", VAn 1); ("kwargs1", VRef 7)]
           [("manalyser1", VAn 0); ("manalyser2", VAn 1); ("kwargs1", VRef 8); ("kwargs2", VNone)]
           [] scene_AB).
  - vm_compute. reflexivity.
  - vm_compute. reflexivity.
  - vm_compute. reflexivity.
Defined.

(** Claim C7 (counterexample): in float64 the map [e -> 1 - e] is not
    involutive: [1 - (1 - 0.1) <> 0.1]. *)
Lemma one_minus_not_involutive : one_minus (one_minus tenth) <> tenth.
Proof.
  intros H.
  assert (E : PrimFloat.eqb (one_minus (one_minus tenth)) tenth = false) by (vm_compute; reflexivity).
  rewrite H in E. vm_compute in E. discriminate.
Qed.

(** Claim C7 (amended): [1 - (1 - e) = e] fails for some floats, so
    [reverse_errors] is not involutive; what holds is that a run of
    [plot_3d_differencemap] with [reverse_errors=True] ends in the same state
    and, when it returns, returns elementwise [1 - e] of the error field of
    the run with [reverse_errors=False] and otherwise identical arguments; the
    two runs raise the same exception otherwise. *)
Theorem plot_3d_differencemap_reverse_errors geometry point_error p s :
  plot_3d_differencemap_body geometry point_error (with_reverse_errors p (VBool true)) s =
  post_map (fun r => (fst r, map one_minus (snd r)))
    (plot_3d_differencemap_body geometry point_error (with_reverse_errors p (VBool false)) s).
Proof.
  unfold plot_3d_differencemap_body.
  do 8 (apply bind_post_same; intros ? ?).
  apply (bind_post _ _ _ _ (map (map one_minus))).
  - apply (mfold_post _ _ _ (map (map one_minus)) []). intros acc eye st.
    apply (bind_post _ _ _ _ (map one_minus)).
    + apply differencemap_eye_reverse.
    + intros errs st2. unfold ret, post_map. simpl. rewrite map_app. reflexivity.
  - intros all st3. apply (bind_post _ _ _ _ (map one_minus)).
    + apply np_concatenate_post.
    + intros errs st4. do 3 (apply bind_post_same; intros ? ?). reflexivity.
Qed.


(** Claim C6: two normal runs of [plot_3d_differencemap] with
    [colorbar=True] against the same target Axes [x], which starts without
    the [differencemap_colorbar] marker, attach exactly one colorbar for [x];
    the target then carries the marker, and on a marked target the colorbar
    block of any later call with [colorbar=True] leaves the state unchanged
    and returns normally. *)
Theorem plot_3d_differencemap_colorbar_once geometry point_error pos1 kw1 b1 e1 pos2 kw2 b2 e2
    x axr s s1 s2 v1 v2 :
  py_bind differencemap_params false pos1 kw1 = Some (b1, e1) ->
  py_bind differencemap_params false pos2 kw2 = Some (b2, e2) ->
  arg b1 "ax" VNone = VAx x -> arg b2 "ax" VNone = VAx x ->
  arg b1 "colorbar" (VBool true) = VBool true -> arg b2 "colorbar" (VBool true) = VBool true ->
  axes_store s !! x = Some axr -> differencemap_colorbar axr = None ->
  plot_3d_differencemap geometry point_error pos1 kw1 s = (s1, Ok v1) ->
  plot_3d_differencemap geometry point_error pos2 kw2 s1 = (s2, Ok v2) ->
  count_colorbars x (trace s2) = count_colorbars x (trace s) + 1 /\ cb_marked x s2 /\
  (forall p t, dm_colorbar p = VBool true -> cb_marked x t -> colorbar_block x p t = (t, Ok tt)).
Proof.
  intros Hb1 Hb2 Hx1 Hx2 Hc1 Hc2 Hx Hn H1 H2.
  destruct (plot_3d_differencemap_cb geometry point_error pos1 kw1 b1 e1 s s1 v1 x axr
              Hb1 Hx1 Hc1 Hx H1) as [[axr1 [Hx' Hm1]] C1].
  destruct (plot_3d_differencemap_cb geometry point_error pos2 kw2 b2 e2 s1 s2 v2 x axr1
              Hb2 Hx2 Hc2 Hx' H2) as [M2 C2].
  rewrite Hn in C1. destruct (differencemap_colorbar axr1) as [c|]; [|congruence].
  split; [lia|]. split; [exact M2|]. apply colorbar_block_marked.
Qed.

Lemma plot_3d_differencemap_colorbar_once_witness :
  let r1 := plot_3d_differencemap (geo_const 2) perr_zero [VAn 0; VAn 1] [("ax", VAx 0)] scene_AB_ax in
  let r2 := plot_3d_differencemap (geo_const 2) perr_zero [VAn 0; VAn 1] [("ax", VAx 0)] (fst r1) in
  count_colorbars 0 (trace (fst r2)) = count_colorbars 0 (trace scene_AB_ax) + 1 /\
  cb_marked 0 (fst r2) /\
  (forall p t, dm_colorbar p = VBool true -> cb_marked 0 t -> colorbar_block 0 p t = (t, Ok tt)).
Proof.
  intros r1 r2.
  apply (plot_3d_differencemap_colorbar_once (geo_const 2) perr_zero
           [VAn 0; VAn 1] [("ax", VAx 0)] [("manalyser1", VAn 0); ("manalyser2", VAn 1); ("ax", VAx 0)] []
           [VAn 0; VAn 1] [("ax", VAx 0)] [("manalyser1", VAn 0); ("manalyser2", VAn 1); ("ax", VAx 0)] []
           0 fresh_axis scene_AB_ax (fst r1) (fst r2) (VAx 0, repeat (fl 0) 4) (VAx 0, repeat (fl 0) 4)).
  all: subst r1 r2; vm_compute; reflexivity.
Defined.

(** Claim C5: in [plot_3d_differencemap] on an entity 1 with eyes
    [["left", "right"]] whose extraction yields 50 points for the left eye
    and 25+25 for the right eye, a normal return gives the concatenation of
    the error fields of the left and then the right eye, 100 entries in all;
    the surface plots on the target are one range [[π/2, 3π/2]] with 50
    samples for the left eye, then [[0, π/2]] and [[3π/2, 2π]] with 25
    samples each for the right eye. *)
Theorem plot_3d_differencemap_error_field_100 geometry point_error p s s' v a1 an1 :
  dm_manalyser1 p = VAn a1 -> analysers s !! a1 = Some an1 -> eyes an1 = ["left"; "right"] ->
  (forall an rs vh vf, geometry an "left" rs vh = Some vf -> length (fst vf) = 50) ->
  (forall an rs vh vf, geometry an "right" rs vh = Some vf -> length (fst vf) = 25 + 25) ->
  plot_3d_differencemap_body geometry point_error p s = (s', Ok v) ->
  exists x t1 t2 t3 eL eR,
    fst v = VAx x /\
    differencemap_eye geometry point_error (dm_manalyser1 p) (dm_manalyser2 p) x
      (dm_colinear p) (dm_reverse_errors p) "left" t1 = (t2, Ok eL) /\
    differencemap_eye geometry point_error (dm_manalyser1 p) (dm_manalyser2 p) x
      (dm_colinear p) (dm_reverse_errors p) "right" t2 = (t3, Ok eR) /\
    snd v = (eL ++ eR)%list /\ length eL = 50 /\ length eR = 50 /\ length (snd v) = 100 /\
    surfaces (trace s') =
      (surfaces (trace s) ++
       [(x, "left", mkPhi 1 3 50); (x, "right", mkPhi 0 1 25); (x, "right", mkPhi 3 4 25)])%list.
Proof.
  intros Hm1 Ha1 He GL GR H.
  destruct (differencemap_body_eyes geometry point_error p s s' v a1 an1 Hm1 Ha1 He H)
    as (x & t1 & t2 & t3 & eL & eR & Hx & HL & HR & Hv & [[l1 [T1 F1]] _] & [[l2 [T2 F2]] _]).
  destruct (differencemap_eye_ok _ _ _ _ _ _ _ _ _ _ _ HL) as [(anL & vfL & GvL & LL) SL].
  destruct (differencemap_eye_ok _ _ _ _ _ _ _ _ _ _ _ HR) as [(anR & vfR & GvR & LR) SR].
  rewrite (GL _ _ _ _ GvL) in LL. rewrite (GR _ _ _ _ GvR) in LR.
  exists x, t1, t2, t3, eL, eR.
  split; [exact Hx|]. split; [exact HL|]. split; [exact HR|]. split; [exact Hv|].
  split; [exact LL|]. split; [exact LR|].
  split; [rewrite Hv, length_app; lia|].
  rewrite T2, surfaces_app, (surfaces_none l2 F2), app_nil_r, SR, SL, T1, surfaces_app,
    (surfaces_none l1 F1), app_nil_r, <- app_assoc. reflexivity.
Qed.

Lemma plot_3d_differencemap_error_field_100_witness :
  let p := mkDiffParams (VAn 0) (VAn 1) (VAx 0) (VInt 10) (VInt 70) (VBool true) (VBool true)
             (VBool true) VNone (VBool false) DEFAULT_COLORBAR_TEXT_POSITIONS (VInt 0)
             (VRef DEFAULT_DIFFERENCEMAP_ARROWS) VNone VNone VNone in
  let r := plot_3d_differencemap_body (geo_const 50) perr_zero p scene_AB_ax in
  exists x t1 t2 t3 eL eR,
    fst (VAx 0, repeat (fl 0) 100) = VAx x /\
    differencemap_eye (geo_const 50) perr_zero (dm_manalyser1 p) (dm_manalyser2 p) x
      (dm_colinear p) (dm_reverse_errors p) "left" t1 = (t2, Ok eL) /\
    differencemap_eye (geo_const 50) perr_zero (dm_manalyser1 p) (dm_manalyser2 p) x
      (dm_colinear p) (dm_reverse_errors p) "right" t2 = (t3, Ok eR) /\
    snd (VAx 0, repeat (fl 0) 100) = (eL ++ eR)%list /\ length eL = 50 /\ length eR = 50 /\
    length (snd (VAx 0, repeat (fl 0) 100)) = 100 /\
    surfaces (trace (fst r)) =
      (surfaces (trace scene_AB_ax) ++
       [(x, "left", mkPhi 1 3 50); (x, "right", mkPhi 0 1 25); (x, "right", mkPhi 3 4 25)])%list.
Proof.
  intros p r.
  apply (plot_3d_differencemap_error_field_100 (geo_const 50) perr_zero p scene_AB_ax (fst r)
           (VAx 0, repeat (fl 0) 100) 0 (entity "MAverager" "MAnalyser" 0)).
  - reflexivity.
  - vm_compute. reflexivity.
  - reflexivity.
  - intros an rs vh vf G. injection G as <-. reflexivity.
  - intros an rs vh vf G. injection G as <-. reflexivity.
  - subst r. vm_compute. reflexivity.
Defined.

(** Claim C8 (counterexample): when the caller's [**kwargs] already holds
    [illustrate], the first view's call of [compare_3d_vectormaps] gets the
    keyword twice and raises TypeError before any invocation runs. *)
Lemma manyviews_illustrate_kwarg_raises :
  let r := compare_3d_vectormaps_manyviews (geo_const 2) perr_zero mean_len [VAn 0; VAn 1]
             [("illustrate", VBool false)] scene_sweep in
  snd r = Err TypeError /\ compare_calls (trace (fst r)) = [].
Proof. vm_compute. split; reflexivity. Qed.

(** Claim C8 (amended): every run of [compare_3d_vectormaps_manyviews] that
    returns normally has invoked [compare_3d_vectormaps] exactly three
    times, with (elev, azim) = (50, 90), (0, 90), (-50, 90) in this order;
    the first invocation receives illustrate, total_error and colorbar True,
    the second and third receive them False; the run appends exactly one
    point to a running error series and attaches at most one colorbar. *)
Theorem compare_3d_vectormaps_manyviews_views geometry point_error np_mean pos kw s s' :
  compare_3d_vectormaps_manyviews geometry point_error np_mean pos kw s = (s', Ok tt) ->
  exists l, trace s' = (trace s ++ l)%list /\ compare_calls l = manyviews_calls /\
            accumulations l = 1 /\ colorbars l <= 1.
Proof.
  intros H. pose proof (frame_run _ _ _ _ _ (frame_manyviews_all geometry point_error np_mean pos kw) H)
    as (l & El & _).
  exists l. split; [exact El|].
  unfold compare_3d_vectormaps_manyviews in H. peel H.
  match goal with Hm : mfor [0; 1; 2]%nat _ _ = _ |- _ => cbn [mfor] in Hm; peel Hm end.
  repeat match goal with Hv : bind (deepcopy_kwargs _) _ _ = _ |- _ => view_iter Hv end.
  qsteps.
  assert (E1 : (compare_calls (trace s) ++ compare_calls l)%list = compare_calls (trace s'))
    by (rewrite El; symmetry; apply compare_calls_app).
  assert (E2 : accumulations (trace s') = accumulations (trace s) + accumulations l)
    by (rewrite El; apply accumulations_app).
  assert (E3 : colorbars (trace s') = colorbars (trace s) + colorbars l)
    by (rewrite El; apply colorbars_app).
  split; [|split; lia].
  repeat match goal with
  | Hx : compare_calls (trace ?a) = _ |- _ =>
      lazymatch a with s => fail | _ => rewrite Hx in *; clear Hx end
  end.
  rewrite <- !app_assoc in E1. apply app_inv_head in E1. rewrite E1. reflexivity.
Qed.

Lemma compare_3d_vectormaps_manyviews_views_witness :
  let kw := [("animation_type", VStr "pitch_rot"); ("animation_variable", VInt 45);
             ("animation", VRef 6)] in
  let s' := fst (compare_3d_vectormaps_manyviews (geo_const 2) perr_zero mean_len
                   [VAn 0; VAn 1] kw scene_sweep) in
  exists l, trace s' = (trace scene_sweep ++ l)%list /\ compare_calls l = manyviews_calls /\
            accumulations l = 1 /\ colorbars l <= 1.
Proof.
  intros kw s'.
  apply (compare_3d_vectormaps_manyviews_views (geo_const 2) perr_zero mean_len [VAn 0; VAn 1]
           kw scene_sweep s').
  vm_compute. reflexivity.
Defined.

(** Claim C4: the running error series of [compare_3d_vectormaps].
    In general, over any invocation that returns normally, the series of
    every Axes object grows by exactly the points accumulated for that Axes
    object, one entry per accumulation, starting from empty lists when it
    had no series (the reset); Axes objects without accumulations keep their
    series.  For a [pitch_rot] sweep over [-45, 0, 45] with [total_error=True]
    and the same total-error target [y], which starts without a series,
    after the three invocations the target's series has exactly three
    entries with animation variables [[-45; 0; 45]] in that order, every
    other series is unchanged, the three accumulations are the ones recorded
    for [y], and every [field_error] call of the sweep is made with
    [colinear=False]. *)
Theorem compare_3d_vectormaps_pitch_sweep geometry point_error np_mean :
  (forall pos kw s s' v,
     compare_3d_vectormaps geometry point_error np_mean pos kw s = (s', Ok v) ->
     exists l, trace s' = (trace s ++ l)%list /\
       forall z, series_grows (series_of s z) (series_of s' z) (accs z l)) /\
  (forall pos1 pos2 pos3 kw1 kw2 kw3 y s0 s1 s2 s3 v1 v2 v3,
     series_of s0 y = None ->
     pitch_sweep_call s0 pos1 kw1 (VInt (-45)) y ->
     compare_3d_vectormaps geometry point_error np_mean pos1 kw1 s0 = (s1, Ok v1) ->
     pitch_sweep_call s1 pos2 kw2 (VInt 0) y ->
     compare_3d_vectormaps geometry point_error np_mean pos2 kw2 s1 = (s2, Ok v2) ->
     pitch_sweep_call s2 pos3 kw3 (VInt 45) y ->
     compare_3d_vectormaps geometry point_error np_mean pos3 kw3 s2 = (s3, Ok v3) ->
     (exists es, series_of s3 y = Some (es, [VInt (-45); VInt 0; VInt 45]) /\ length es = 3) /\
     (forall z, z <> y -> series_of s3 z = series_of s0 z) /\
     exists l, trace s3 = (trace s0 ++ l)%list /\
       accs y l = [VInt (-45); VInt 0; VInt 45] /\ Forall colinear_false l).
Proof.
  split.
  - intros pos kw s s' v H. apply compare_series in H as (b & e & _ & l & El & Gl & _).
    exists l. auto.
  - intros pos1 pos2 pos3 kw1 kw2 kw3 y s0 s1 s2 s3 v1 v2 v3 H0
      (b1' & e1' & P1 & At1 & Av1 & Te1 & Tg1) R1 (b2' & e2' & P2 & At2 & Av2 & Te2 & Tg2) R2
      (b3' & e3' & P3 & At3 & Av3 & Te3 & Tg3) R3.
    apply compare_series in R1 as (b1 & e1 & Q1 & l1 & E1 & G1 & T1 & C1).
    apply compare_series in R2 as (b2 & e2 & Q2 & l2 & E2 & G2 & T2 & C2).
    apply compare_series in R3 as (b3 & e3 & Q3 & l3 & E3 & G3 & T3 & C3).
    rewrite P1 in Q1. injection Q1 as <- <-. rewrite P2 in Q2. injection Q2 as <- <-.
    rewrite P3 in Q3. injection Q3 as <- <-.
    specialize (T1 Te1 y Tg1). specialize (T2 Te2 y Tg2). specialize (T3 Te3 y Tg3).
    rewrite Av1 in T1. rewrite Av2 in T2. rewrite Av3 in T3.
    rewrite At1 in C1. rewrite At2 in C2. rewrite At3 in C3.
    specialize (C1 eq_refl). specialize (C2 eq_refl). specialize (C3 eq_refl).
    split; [|split].
    + pose proof (G1 y) as K1. pose proof (G2 y) as K2. pose proof (G3 y) as K3.
      rewrite T1, Nat.eqb_refl in K1. rewrite T2, Nat.eqb_refl in K2.
      rewrite T3, Nat.eqb_refl in K3.
      apply series_grows_one in K1 as (m1 & K1). apply series_grows_one in K2 as (m2 & K2).
      apply series_grows_one in K3 as (m3 & K3).
      rewrite H0 in K1. rewrite K1 in K2. rewrite K2 in K3. simpl in K3.
      exists [m1; m2; m3]. rewrite K3. split; reflexivity.
    + intros z Hz. pose proof (G1 z) as K1. pose proof (G2 z) as K2. pose proof (G3 z) as K3.
      assert (Ez : Nat.eqb y z = false) by (apply Nat.eqb_neq; congruence).
      rewrite T1, Ez in K1. rewrite T2, Ez in K2. rewrite T3, Ez in K3.
      simpl in K1, K2, K3. congruence.
    + exists (l1 ++ l2 ++ l3)%list. split; [rewrite E3, E2, E1, <- !app_assoc; reflexivity|].
      split.
      * rewrite !accs_app, T1, T2, T3, Nat.eqb_refl. reflexivity.
      * apply Forall_app; split; [exact C1 | apply Forall_app; split; assumption].
Qed.

Lemma compare_3d_vectormaps_pitch_sweep_witness :
  let kw := fun z : Z => [("axes", VRef 7); ("animation_type", VStr "pitch_rot");
                          ("animation_variable", VInt z); ("animation", VRef 6)] in
  let run := compare_3d_vectormaps (geo_const 2) perr_zero mean_len [VAn 0; VAn 1] in
  let s1 := fst (run (kw (-45)%Z) scene_sweep_axes) in
  let s2 := fst (run (kw 0%Z) s1) in
  let s3 := fst (run (kw 45%Z) s2) in
  (exists es, series_of s3 4 = Some (es, [VInt (-45); VInt 0; VInt 45]) /\ length es = 3) /\
  (forall z, z <> 4 -> series_of s3 z = series_of scene_sweep_axes z) /\
  exists l, trace s3 = (trace scene_sweep_axes ++ l)%list /\
    accs 4 l = [VInt (-45); VInt 0; VInt 45] /\ Forall colinear_false l.
Proof.
  intros kw run s1 s2 s3.
  apply (proj2 (compare_3d_vectormaps_pitch_sweep (geo_const 2) perr_zero mean_len)
           [VAn 0; VAn 1] [VAn 0; VAn 1] [VAn 0; VAn 1] (kw (-45)%Z) (kw 0%Z) (kw 45%Z) 4
           scene_sweep_axes s1 s2 s3 (VRef 7) (VRef 7) (VRef 7)).
  all: try (subst kw run s1 s2 s3; vm_compute; reflexivity).
  all: eexists (dset (dset (dset (dset [("manalyser1", VAn 0); ("manalyser2", VAn 1)] "axes" (VRef 7))
                   "animation_type" (VStr "pitch_rot")) "animation_variable" (VInt _))
                   "animation" (VRef 6)), [].
  all: split; [subst kw run s1 s2 s3; vm_compute; reflexivity|].
  all: split; [vm_compute; reflexivity|].
  all: split; [vm_compute; reflexivity|].
  all: split; [vm_compute; reflexivity|].
  all: exists false, false, true, 7, [VAx 0; VAx 1; VAx 2; VAx 3; VAx 4].
  all: subst kw run s1 s2 s3; vm_compute; repeat split.
Defined.
